(** * dice_roll: a shallow embedding of [dice_roll.py] and its properties

    The development follows the source file top to bottom: the constants,
    the string helpers the parser relies on, the [dice] class with its
    methods, the token loop of [main], and the two simulation loops.

    Modelling conventions.
    - Python [int] is [Z].  Strings are [string] (sequences of 8-bit
      characters); [str.isdigit] is therefore the ASCII digit test.
    - Every [raise ValueError(...)] of the source is one constructor of
      [error], named after its message; [kind_of] groups them into the
      error kinds of the specification.
    - A [dice] object is mutable in the source.  Methods that mutate
      [self] return the updated record, and the callers thread it.
    - [random.choice(range(n))] reads the next entry of a finite tape of
      raw generator outputs and reduces it into [range(n)].  A tape that
      is used up yields [Starved]: the run needs more draws than the tape
      holds.  The interpreter's recursion limit is not modelled. *)

From Stdlib Require Import ZArith List String Ascii Bool Lia Permutation.
Import ListNotations.
Local Open Scope string_scope.
Local Open Scope list_scope.
Local Open Scope Z_scope.

(* ================================================================== *)
(** ** Constants *)

Definition INSTRCTN_ARR : list ascii :=
  ["d"; "r"; "t"; "l"; "h"; "A"; "D"; "E"]%char.
Definition SPEC_ARR : list ascii := ["r"; "t"; "l"; "h"]%char.
Definition SPEC_DEFS : list (ascii * Z) := map (fun spec => (spec, 0)) SPEC_ARR.
Definition N_FREQTEST : Z := 100000.
Definition REGULAR_POLYHEDRA : list Z := [4; 6; 8; 10; 12; 20; 100].

(* ================================================================== *)
(** ** Errors *)

Inductive error : Type :=
| BadlyFormattedRoll (roll : string)      (* "Roll %s is badly formatted." *)
| InvalidSpecChar (s : ascii)             (* "Invalid spec %s." (get, set) *)
| InvalidSpec (spec : string)             (* "Spec %s is invalid." *)
| SetTwice (val : ascii)                  (* "Invalid roll. `%s` is set twice." *)
| BadlyFormattedSpec (spec : string)      (* "Spec %s is badly formatted." *)
| RollsNotPositive                        (* "Number of rolls should be greater than 0." *)
| RerollNeedsBoth                         (* "To allow rerolls, set both r and t specs." *)
| ThresholdTooHigh                        (* "Reroll threshold cannot be higher than n_faces." *)
| TooManyDropped                          (* "More dice dropped than total dice rolled." *)
| IncompatibleArgs                        (* "--freqtest and --ntests are incompatible args." *)
| MalformedRoll                           (* "Input roll is malformed." *)
| NoDiceYet                               (* "Define dice before adding specs to it." *)
| ShorthandNeedsOneRoll                   (* "A, D, and E only work if n_rolls is 1." *)
| PyKeyError                              (* dict lookup of an absent key *)
| PyIndexError                            (* index out of range, choice of an empty range *)
| PyEmptySequence                         (* min() or max() of an empty list *)
| PyNotInList.                            (* list.remove(x) with x absent *)

Inductive error_kind : Type :=
| FormatError | SequenceError | DuplicateModifierError
| ValidationError | ConfigConflictError | InterpreterError.

Definition kind_of (e : error) : error_kind :=
  match e with
  | BadlyFormattedRoll _ | InvalidSpec _ | BadlyFormattedSpec _
  | MalformedRoll | InvalidSpecChar _ => FormatError
  | NoDiceYet | ShorthandNeedsOneRoll => SequenceError
  | SetTwice _ => DuplicateModifierError
  | RollsNotPositive | RerollNeedsBoth | ThresholdTooHigh
  | TooManyDropped => ValidationError
  | IncompatibleArgs => ConfigConflictError
  | PyKeyError | PyIndexError | PyEmptySequence | PyNotInList => InterpreterError
  end.

Inductive result (A : Type) : Type :=
| OK (a : A)
| Err (e : error).
Arguments OK {A} a.
Arguments Err {A} e.

Definition rbind {A B} (m : result A) (k : A -> result B) : result B :=
  match m with
  | OK a => k a
  | Err e => Err e
  end.

Declare Scope result_scope.
Delimit Scope result_scope with result.
Notation "x <- m ;; k" := (rbind m (fun x => k))
  (at level 61, m at next level, right associativity) : result_scope.
Notation "m ;;; k" := (rbind m (fun _ => k))
  (at level 61, right associativity) : result_scope.

(* ================================================================== *)
(** ** String helpers: [in], [str.split], [str.isdigit], [int] *)

(** [bool(spec.find(x)+1)] for a one-character [x]. *)
Fixpoint contains (x : ascii) (s : string) : bool :=
  match s with
  | EmptyString => false
  | String a s' => if Ascii.eqb a x then true else contains x s'
  end.

(** [s.split(sep)] for a one-character separator. *)
Fixpoint split (sep : ascii) (s : string) : list string :=
  match s with
  | EmptyString => [EmptyString]
  | String a s' =>
      if Ascii.eqb a sep then EmptyString :: split sep s'
      else match split sep s' with
           | [] => [String a EmptyString]
           | p :: ps => String a p :: ps
           end
  end.

Definition digit_value (a : ascii) : option Z :=
  let n := Z.of_nat (nat_of_ascii a) in
  if (48 <=? n) && (n <=? 57) then Some (n - 48) else None.

Definition is_digit (a : ascii) : bool :=
  match digit_value a with Some _ => true | None => false end.

Fixpoint all_digits (s : string) : bool :=
  match s with
  | EmptyString => true
  | String a s' => is_digit a && all_digits s'
  end.

(** [str.isdigit]: false on the empty string. *)
Definition isdigit (s : string) : bool :=
  match s with
  | EmptyString => false
  | _ => all_digits s
  end.

Fixpoint int_acc (acc : Z) (s : string) : Z :=
  match s with
  | EmptyString => acc
  | String a s' =>
      int_acc (10 * acc + match digit_value a with Some v => v | None => 0 end) s'
  end.

(** [int(s)], used by the source only behind an [isdigit] test. *)
Definition int (s : string) : Z := int_acc 0 s.

(** [sum] of a list of booleans, and [any]. *)
Definition bsum (l : list bool) : Z :=
  fold_right (fun (b : bool) acc => (if b then 1 else 0) + acc) 0 l.
Definition any (l : list bool) : bool := existsb (fun b => b) l.

(** [l.index(True)]. *)
Fixpoint index_true (l : list bool) : option nat :=
  match l with
  | [] => None
  | true :: _ => Some O
  | false :: l' => option_map S (index_true l')
  end.

(** [l[a:b]]. *)
Definition slice {A} (a b : nat) (l : list A) : list A :=
  firstn (b - a) (skipn a l).

(* ================================================================== *)
(** ** The [dice] class *)

Record dice : Type := mk_dice {
  n_faces : Z;
  n_rolls : Z;
  n_rerolls : Z;
  reroll_threshold : Z;
  n_lowest_dropped : Z;
  n_highest_dropped : Z
}.

Definition spec_def (s : ascii) : result Z :=
  match find (fun kv => Ascii.eqb (fst kv) s) SPEC_DEFS with
  | Some kv => OK (snd kv)
  | None => Err PyKeyError
  end.

Definition with_n_rolls (d : dice) (v : Z) : dice :=
  mk_dice (n_faces d) v (n_rerolls d) (reroll_threshold d)
          (n_lowest_dropped d) (n_highest_dropped d).
Definition with_n_rerolls (d : dice) (v : Z) : dice :=
  mk_dice (n_faces d) (n_rolls d) v (reroll_threshold d)
          (n_lowest_dropped d) (n_highest_dropped d).
Definition with_reroll_threshold (d : dice) (v : Z) : dice :=
  mk_dice (n_faces d) (n_rolls d) (n_rerolls d) v
          (n_lowest_dropped d) (n_highest_dropped d).
Definition with_n_lowest_dropped (d : dice) (v : Z) : dice :=
  mk_dice (n_faces d) (n_rolls d) (n_rerolls d) (reroll_threshold d)
          v (n_highest_dropped d).
Definition with_n_highest_dropped (d : dice) (v : Z) : dice :=
  mk_dice (n_faces d) (n_rolls d) (n_rerolls d) (reroll_threshold d)
          (n_lowest_dropped d) v.

(** [dice.__init__]: the modifiers start at the class defaults
    [SPEC_DEFS[...]], all 0. *)
Definition dice_init (roll : string) : result dice :=
  let dice_arr := split "d" roll in
  let dice_arr :=
    match dice_arr with
    | EmptyString :: rest => "1" :: rest
    | _ => dice_arr
    end in
  if negb (Nat.eqb (List.length dice_arr) 2) || negb (forallb isdigit dice_arr)
  then Err (BadlyFormattedRoll roll)
  else
    match map int dice_arr with
    | [rolls; faces] => OK (mk_dice faces rolls 0 0 0 0)
    | _ => Err PyIndexError
    end.

Definition get (d : dice) (s : ascii) : result Z :=
  if Ascii.eqb s "r" then OK (n_rerolls d)
  else if Ascii.eqb s "t" then OK (reroll_threshold d)
  else if Ascii.eqb s "l" then OK (n_lowest_dropped d)
  else if Ascii.eqb s "h" then OK (n_highest_dropped d)
  else Err (InvalidSpecChar s).

Definition set (d : dice) (s : ascii) (v : Z) : result dice :=
  if Ascii.eqb s "r" && (v =? 0) then OK (with_n_rerolls d (-1))
  else if Ascii.eqb s "r" then OK (with_n_rerolls d v)
  else if Ascii.eqb s "t" then OK (with_reroll_threshold d v)
  else if Ascii.eqb s "l" then OK (with_n_lowest_dropped d v)
  else if Ascii.eqb s "h" then OK (with_n_highest_dropped d v)
  else Err (InvalidSpecChar s).

Definition add_spec (d : dice) (spec : string) : result dice :=
  (let val_arr := map (fun x => contains x spec) SPEC_ARR in
   if negb (any val_arr) || negb (bsum val_arr =? 1)
   then Err (InvalidSpec spec)
   else
     match index_true val_arr with
     | None => Err PyIndexError
     | Some i =>
         match nth_error SPEC_ARR i with
         | None => Err PyIndexError
         | Some val =>
             cur <- get d val ;;
             def <- spec_def val ;;
             if negb (cur =? def) then Err (SetTwice val)
             else
               let spec_arr := split val spec in
               match spec_arr with
               | [_; digits] =>
                   if isdigit digits then set d val (int digits)
                   else Err (BadlyFormattedSpec spec)
               | _ => Err (BadlyFormattedSpec spec)
               end
         end
     end)%result.

Inductive warning : Type :=
| NotRegularPolyhedron      (* "Warning: die is not a regular polyhedron." *)
| DroppingBoth.             (* "Warning: dropping lowest and highest dice. Is that ok?" *)

Definition Zmem (x : Z) (l : list Z) : bool := existsb (Z.eqb x) l.

(** [bool(n)] of an integer. *)
Definition truthy (n : Z) : bool := negb (n =? 0).

(** [dice.sanitize]: the warnings printed, and the exception if any. *)
Definition sanitize (d : dice) : list warning * result unit :=
  let w1 := if Zmem (n_faces d) [4; 6; 8; 10; 12; 20; 100] then []
            else [NotRegularPolyhedron] in
  if n_rolls d <=? 0 then (w1, Err RollsNotPositive)
  else if negb (Bool.eqb (truthy (n_rerolls d)) (truthy (reroll_threshold d)))
  then (w1, Err RerollNeedsBoth)
  else if reroll_threshold d >=? n_faces d then (w1, Err ThresholdTooHigh)
  else
    let w2 := if truthy (n_lowest_dropped d) && truthy (n_highest_dropped d)
              then [DroppingBoth] else [] in
    if n_lowest_dropped d + n_highest_dropped d >? n_rolls d
    then (w1 ++ w2, Err TooManyDropped)
    else (w1 ++ w2, OK tt).

(* ================================================================== *)
(** ** The token loop of [main] *)

(** [dice_arr[-1]] and the mutation of that object in place. *)
Fixpoint last_opt {A} (l : list A) : option A :=
  match l with
  | [] => None
  | [x] => Some x
  | _ :: l' => last_opt l'
  end.

Definition set_last {A} (l : list A) (x : A) : list A := removelast l ++ [x].

(** One iteration of [for spec in args.rolls]. *)
Definition process_token (dice_arr : list dice) (spec : string)
  : result (list dice) :=
  (let instruction := map (fun x => contains x spec) INSTRCTN_ARR in
   if negb (bsum instruction =? 1) then Err MalformedRoll
   else if nth 0 instruction false then
     d <- dice_init spec ;; OK (dice_arr ++ [d])
   else
     match last_opt dice_arr with
     | None => Err NoDiceYet
     | Some cur =>
         if any (slice 1 5 instruction) then
           d <- add_spec cur spec ;; OK (set_last dice_arr d)
         else if any (slice 5 7 instruction) && negb (n_rolls cur =? 1) then
           Err ShorthandNeedsOneRoll
         else if nth 5 instruction false then
           d <- add_spec (with_n_rolls cur 2) "l1" ;; OK (set_last dice_arr d)
         else if nth 6 instruction false then
           d <- add_spec (with_n_rolls cur 2) "h1" ;; OK (set_last dice_arr d)
         else if nth 7 instruction false then
           d <- add_spec (with_n_rolls cur 3) "l2" ;; OK (set_last dice_arr d)
         else OK dice_arr
     end)%result.

Fixpoint process_rolls (dice_arr : list dice) (rolls : list string)
  : result (list dice) :=
  match rolls with
  | [] => OK dice_arr
  | spec :: rest =>
      (dice_arr' <- process_token dice_arr spec ;;
       process_rolls dice_arr' rest)%result
  end.

(** The parser proper: the loop started on [dice_arr = []]. *)
Definition parse (rolls : list string) : result (list dice) :=
  process_rolls [] rolls.

(** [for d in dice_arr: d.sanitize()]. *)
Fixpoint sanitize_all (dice_arr : list dice) : list warning * result unit :=
  match dice_arr with
  | [] => ([], OK tt)
  | d :: rest =>
      match sanitize d with
      | (w, OK _) => let (ws, r) := sanitize_all rest in (w ++ ws, r)
      | (w, Err e) => (w, Err e)
      end
  end.

(* ================================================================== *)
(** ** Rolling: [dice.roll] and [dice.roll_n] *)

Definition tape : Type := list Z.

Inductive outcome (A : Type) : Type :=
| Done (a : A)
| Raised (e : error)
| Starved.
Arguments Done {A} a.
Arguments Raised {A} e.
Arguments Starved {A}.

Definition obind {A B} (m : outcome A) (k : A -> outcome B) : outcome B :=
  match m with
  | Done a => k a
  | Raised e => Raised e
  | Starved => Starved
  end.

Definition lift {A} (r : result A) : outcome A :=
  match r with
  | OK a => Done a
  | Err e => Raised e
  end.

Declare Scope outcome_scope.
Delimit Scope outcome_scope with outcome.
Notation "x <- m ;; k" := (obind m (fun x => k))
  (at level 61, m at next level, right associativity) : outcome_scope.
Notation "' p <- m ;; k" := (obind m (fun x => match x with p => k end))
  (at level 61, p pattern, m at next level, right associativity) : outcome_scope.

(** [random.choice(range(n))]. *)
Definition random_choice_range (n : Z) (g : tape) : outcome (Z * tape) :=
  if n <=? 0 then Raised PyIndexError
  else match g with
       | [] => Starved
       | r :: g' => Done (r mod n, g')
       end.

(** [dice.roll].  The recursive call is the reroll; it consumes one more
    entry of the tape, which is what the recursion descends on. *)
Fixpoint roll (d : dice) (g : tape) {struct g} : outcome (Z * dice * tape) :=
  if n_faces d <=? 0 then Raised PyIndexError
  else
    match g with
    | [] => Starved
    | r :: g' =>
        let x := r mod n_faces d + 1 in
        if (x <=? reroll_threshold d) && negb (n_rerolls d =? 0)
        then roll (with_n_rerolls d (n_rerolls d - 1)) g'
        else Done (x, d, g')
    end.

(** [[self.roll() for _ in range(n)]]: the same object is rolled each
    time, so the reroll budget left by one die is the budget of the next. *)
Fixpoint roll_times (n : nat) (d : dice) (g : tape)
  : outcome (list Z * dice * tape) :=
  match n with
  | O => Done ([], d, g)
  | S n' =>
      ('(x, d1, g1) <- roll d g ;;
       '(xs, d2, g2) <- roll_times n' d1 g1 ;;
       Done (x :: xs, d2, g2))%outcome
  end.

(** [min(rolls)], [max(rolls)], [rolls.remove(x)], [sum(rolls)]. *)
Definition list_min (l : list Z) : result Z :=
  match l with
  | [] => Err PyEmptySequence
  | x :: l' => OK (fold_left Z.min l' x)
  end.

Definition list_max (l : list Z) : result Z :=
  match l with
  | [] => Err PyEmptySequence
  | x :: l' => OK (fold_left Z.max l' x)
  end.

Fixpoint remove_first (x : Z) (l : list Z) : result (list Z) :=
  match l with
  | [] => Err PyNotInList
  | y :: l' =>
      if y =? x then OK l'
      else (r <- remove_first x l' ;; OK (y :: r))%result
  end.

Definition zsum (l : list Z) : Z := fold_left Z.add l 0.

(** [for _ in range(n): rolls.remove(min(rolls))] and its twin. *)
Fixpoint drop_lowest (n : nat) (rolls : list Z) : result (list Z) :=
  match n with
  | O => OK rolls
  | S n' =>
      (m <- list_min rolls ;;
       rolls' <- remove_first m rolls ;;
       drop_lowest n' rolls')%result
  end.

Fixpoint drop_highest (n : nat) (rolls : list Z) : result (list Z) :=
  match n with
  | O => OK rolls
  | S n' =>
      (m <- list_max rolls ;;
       rolls' <- remove_first m rolls ;;
       drop_highest n' rolls')%result
  end.

(** The part of [roll_n] after the dice are rolled. *)
Definition drop_and_sum (d : dice) (rolls : list Z) : result Z :=
  (rolls1 <- drop_lowest (Z.to_nat (n_lowest_dropped d)) rolls ;;
   rolls2 <- drop_highest (Z.to_nat (n_highest_dropped d)) rolls1 ;;
   OK (zsum rolls2))%result.

Definition roll_n (d : dice) (g : tape) : outcome (Z * dice * tape) :=
  ('(rolls, d', g') <- roll_times (Z.to_nat (n_rolls d)) d g ;;
   total <- lift (drop_and_sum d' rolls) ;;
   Done (total, d', g'))%outcome.

(* ================================================================== *)
(** ** The simulation loops of [main] *)

(** [deepcopy]: the copy is a new object with the same fields.  What
    matters is where the object mutated by [roll_n] ends up: a loop that
    rolls a copy keeps the original, a loop that rolls the original would
    keep the mutated one. *)
Definition deepcopy {A} (x : A) : A := x.

(** [[d.roll_n() for d in copies]]: the totals, and the copies as the
    calls leave them. *)
Fixpoint roll_each (copies : list dice) (g : tape)
  : outcome (list Z * list dice * tape) :=
  match copies with
  | [] => Done ([], [], g)
  | d :: rest =>
      ('(total, d', g1) <- roll_n d g ;;
       '(totals, rest', g2) <- roll_each rest g1 ;;
       Done (total :: totals, d' :: rest', g2))%outcome
  end.

(** One iteration of the [else] branch: the row printed after "Roll i |".
    The loop state is [dice_arr] and the tape. *)
Definition explicit_trial (dice_arr : list dice) (g : tape)
  : outcome (list Z * list dice * tape) :=
  ('(row, _, g') <- roll_each (deepcopy dice_arr) g ;;
   Done (row, dice_arr, g'))%outcome.

Fixpoint explicit_loop (n : nat) (dice_arr : list dice) (g : tape)
  : outcome (list (list Z) * list dice * tape) :=
  match n with
  | O => Done ([], dice_arr, g)
  | S n' =>
      ('(row, dice_arr1, g1) <- explicit_trial dice_arr g ;;
       '(rows, dice_arr2, g2) <- explicit_loop n' dice_arr1 g1 ;;
       Done (row :: rows, dice_arr2, g2))%outcome
  end.

(** [sum_arr[i] += v]. *)
Fixpoint add_at (i : nat) (v : Z) (sum_arr : list Z) : result (list Z) :=
  match sum_arr, i with
  | [], _ => Err PyIndexError
  | s :: rest, O => OK (s + v :: rest)
  | s :: rest, S i' => (rest' <- add_at i' v rest ;; OK (s :: rest'))%result
  end.

(** [for i_die, d in enumerate(dice_arr): sum_arr[i_die] += deepcopy(d).roll_n()],
    from index [i] on. *)
Fixpoint freq_each (i : nat) (ds : list dice) (sum_arr : list Z) (g : tape)
  : outcome (list Z * tape) :=
  match ds with
  | [] => Done (sum_arr, g)
  | d :: rest =>
      ('(total, _, g1) <- roll_n (deepcopy d) g ;;
       sum_arr1 <- lift (add_at i total sum_arr) ;;
       freq_each (S i) rest sum_arr1 g1)%outcome
  end.

Fixpoint freq_loop (n : nat) (dice_arr : list dice) (sum_arr : list Z)
  (g : tape) : outcome (list Z * list dice * tape) :=
  match n with
  | O => Done (sum_arr, dice_arr, g)
  | S n' =>
      ('(sum_arr1, g1) <- freq_each 0 dice_arr sum_arr g ;;
       freq_loop n' dice_arr sum_arr1 g1)%outcome
  end.

(** The parsed command line. *)
Record args : Type := mk_args {
  rolls : list string;
  ntests : option Z;
  freqtest : bool
}.

(** What [main] prints: the warnings of [sanitize], the header naming
    each die as (n_rolls, n_faces), and either one row of totals per
    test or the sums to be divided by [n_tests]. *)
Inductive report : Type :=
| Rolls (rows : list (list Z))
| Averages (sum_arr : list Z) (n_tests : Z).

Record printed : Type := mk_printed {
  warnings : list warning;
  header : list (Z * Z);
  body : report
}.

Definition is_some {A} (o : option A) : bool :=
  match o with Some _ => true | None => false end.

Definition main (a : args) (g : tape) : outcome (printed * tape) :=
  if freqtest a && is_some (ntests a) then Raised IncompatibleArgs
  else
    let n_tests := 1 in
    let n_tests := match ntests a with Some n => n | None => n_tests end in
    let n_tests := if freqtest a then N_FREQTEST else n_tests in
    (dice_arr <- lift (process_rolls [] (rolls a)) ;;
     let (ws, checked) := sanitize_all dice_arr in
     _ <- lift checked ;;
     let hd := map (fun d => (n_rolls d, n_faces d)) dice_arr in
     if n_tests =? N_FREQTEST then
       let sum_arr := map (fun _ => 0) dice_arr in
       '(sum_arr', _, g') <- freq_loop (Z.to_nat n_tests) dice_arr sum_arr g ;;
       Done (mk_printed ws hd (Averages sum_arr' n_tests), g')
     else
       '(rows, _, g') <- explicit_loop (Z.to_nat n_tests) dice_arr g ;;
       Done (mk_printed ws hd (Rolls rows), g'))%outcome.

(* ================================================================== *)
(** ** Notions used by the statements *)

(** The ranges of the data model: sizes and counts are natural numbers,
    the reroll budget is at least -1. *)
Record in_range (d : dice) : Prop := mk_in_range {
  faces_nonneg : 0 <= n_faces d;
  rolls_nonneg : 0 <= n_rolls d;
  rerolls_lower : -1 <= n_rerolls d;
  threshold_nonneg : 0 <= reroll_threshold d;
  lowest_nonneg : 0 <= n_lowest_dropped d;
  highest_nonneg : 0 <= n_highest_dropped d
}.

(** A configuration the simulation can receive: built by the parser,
    hence within the ranges above, and accepted by [sanitize]. *)
Definition validated (d : dice) : Prop :=
  in_range d /\ snd (sanitize d) = OK tt.

(** The number of draws a run has taken from the tape. *)
Definition draws (g g' : tape) : Z :=
  Z.of_nat (List.length g) - Z.of_nat (List.length g').

(** The draws of a tape that end the rerolls of [d] at once: those
    showing a face above the threshold. *)
Definition high_draws (d : dice) (g : tape) : nat :=
  List.length
    (filter (fun r => reroll_threshold d <? r mod n_faces d + 1) g).

(** The reading of the reroll budget as an allowance of each die, written
    after the specification's words ("N rerolls per individual die") for
    comparison with [roll_times]: every die of the group starts from the
    budget of the configuration, whatever the dice before it used. *)
Fixpoint roll_times_per_die (n : nat) (d : dice) (g : tape)
  : outcome (list Z * tape) :=
  match n with
  | O => Done ([], g)
  | S n' =>
      ('(x, _, g1) <- roll d g ;;
       '(xs, g2) <- roll_times_per_die n' d g1 ;;
       Done (x :: xs, g2))%outcome
  end.

(** Trials that each roll the configurations as they were validated:
    [rows] are the totals of consecutive trials over [dice_arr], the
    tape running from [g] to [g'].  What a trial leaves in the objects it
    rolled ([used]) plays no part in the next one. *)
Inductive fresh_trials (dice_arr : list dice)
  : tape -> list (list Z) -> tape -> Prop :=
| fresh_none (g : tape) : fresh_trials dice_arr g [] g
| fresh_next (g g1 g2 : tape) (row : list Z) (used : list dice)
    (rows : list (list Z)) :
    roll_each dice_arr g = Done (row, used, g1) ->
    fresh_trials dice_arr g1 rows g2 ->
    fresh_trials dice_arr g (row :: rows) g2.

(** Entry-wise sum of the running sums and one row of totals. *)
Fixpoint add_row (sum_arr row : list Z) : list Z :=
  match sum_arr, row with
  | s :: sum_arr', v :: row' => s + v :: add_row sum_arr' row'
  | _, _ => sum_arr
  end.

(** The number of dice a token asks for: 1 when nothing precedes the "d". *)
Definition count_of (c : string) : Z :=
  match c with
  | EmptyString => 1
  | _ => int c
  end.

(** The number of dice of a group that count towards its total. *)
Definition kept_dice (d : dice) : Z :=
  n_rolls d - n_lowest_dropped d - n_highest_dropped d.


(** Two results agree up to the order of the list they hold. *)
Definition same_up_to_order (r r' : result (list Z)) : Prop :=
  match r, r' with
  | OK l, OK l' => Permutation l l'
  | Err e, Err e' => e = e'
  | _, _ => False
  end.

(** Case analysis on which of the four tags a token carries. *)
Ltac tag_cases spec :=
  destruct (contains "r"%char spec) eqn:?Hr;
  destruct (contains "t"%char spec) eqn:?Ht;
  destruct (contains "l"%char spec) eqn:?Hl;
  destruct (contains "h"%char spec) eqn:?Hh.

Ltac pick_tag H :=
  simpl in H;
  repeat match type of H with
         | _ \/ _ => destruct H as [H|H]
         | False => contradiction
         | _ = _ => subst
         end.

Ltac instr_cases spec :=
  destruct (contains "d"%char spec) eqn:?Hd;
  destruct (contains "r"%char spec) eqn:?Hr;
  destruct (contains "t"%char spec) eqn:?Ht;
  destruct (contains "l"%char spec) eqn:?Hl;
  destruct (contains "h"%char spec) eqn:?Hh;
  destruct (contains "A"%char spec) eqn:?HA;
  destruct (contains "D"%char spec) eqn:?HD;
  destruct (contains "E"%char spec) eqn:?HE.

(** Case analysis on the comparisons made while dropping. *)
Ltac drop_cases :=
  cbn [drop_lowest drop_highest list_min list_max fold_left rbind remove_first];
  repeat match goal with
         | |- context [?x =? ?y] =>
             destruct (Z.eqb_spec x y);
             cbn [drop_lowest drop_highest list_min list_max fold_left rbind
                    remove_first]
         end;
  try (exfalso; lia); f_equal; repeat f_equal; lia.

(* ================================================================== *)
(** * Properties *)

(** ** Strings *)

Lemma digit_value_bounds (a : ascii) (v : Z) :
  digit_value a = Some v -> 0 <= v <= 9.
Proof.
  unfold digit_value. generalize (Z.of_nat (nat_of_ascii a)) as n.
  intros n. cbv zeta.
  destruct (48 <=? n) eqn:Hlo; cbn [andb]; try discriminate.
  destruct (n <=? 57) eqn:Hhi; try discriminate.
  intros [= <-]. apply Z.leb_le in Hlo, Hhi. lia.
Qed.

Lemma int_acc_nonneg (s : string) :
  forall acc, 0 <= acc -> 0 <= int_acc acc s.
Proof.
  induction s as [|a s IH]; intros acc Hacc; cbn [int_acc]; [assumption|].
  apply IH. destruct (digit_value a) as [v|] eqn:Hv; [|lia].
  apply digit_value_bounds in Hv. lia.
Qed.

Lemma int_nonneg (s : string) : 0 <= int s.
Proof. apply int_acc_nonneg. lia. Qed.

(** A character that is not a digit does not occur in a digit string. *)
Lemma contains_all_digits (x : ascii) (s : string) :
  is_digit x = false -> all_digits s = true -> contains x s = false.
Proof.
  intros Hx. induction s as [|a s IH]; simpl; [reflexivity|].
  intros Hs. apply andb_true_iff in Hs as [Ha Hs].
  destruct (Ascii.eqb_spec a x) as [->|_]; [congruence|auto].
Qed.

Lemma isdigit_all_digits (s : string) :
  isdigit s = true -> all_digits s = true.
Proof. destruct s; simpl; [discriminate|trivial]. Qed.

Lemma split_absent (sep : ascii) (s : string) :
  contains sep s = false -> split sep s = [s].
Proof.
  induction s as [|a s IH]; simpl; [reflexivity|].
  destruct (Ascii.eqb a sep); [discriminate|].
  intros H. rewrite (IH H). reflexivity.
Qed.

(** A tag followed by digits splits into the empty prefix and the digits. *)
Lemma split_tag_digits (tag : ascii) (digits : string) :
  is_digit tag = false -> all_digits digits = true ->
  split tag (String tag digits) = [EmptyString; digits].
Proof.
  intros Ht Hd. simpl. rewrite Ascii.eqb_refl.
  rewrite split_absent; [reflexivity|].
  apply contains_all_digits; assumption.
Qed.

(** ** [add_spec] *)

(** A token accepted by [add_spec]: it carries one tag, whose field
    still holds the default, and the digits after the tag are what [set]
    receives. *)
Lemma add_spec_inv (d d' : dice) (spec : string) :
  add_spec d spec = OK d' ->
  exists val prefix digits,
    In val SPEC_ARR /\ contains val spec = true /\
    get d val = OK 0 /\
    split val spec = [prefix; digits] /\ isdigit digits = true /\
    set d val (int digits) = OK d' /\
    (forall tag, In tag SPEC_ARR -> contains tag spec = true -> tag = val).
Proof.
  unfold add_spec. cbn [map SPEC_ARR].
  tag_cases spec; cbn -[split int isdigit]; try discriminate;
    match goal with
    | |- context [split ?c spec] =>
        destruct (_ =? 0) eqn:Hcur; cbn -[split int isdigit]; try discriminate;
        apply Z.eqb_eq in Hcur;
        destruct (split c spec) as [|prefix [|digits [|? ?]]] eqn:Hsplit;
        try discriminate;
        destruct (isdigit digits) eqn:Hdig; try discriminate;
        intros Hset; exists c, prefix, digits;
        repeat split; simpl; auto 6; try (unfold get; simpl; congruence);
        intros tag Htag Hc; pick_tag Htag; congruence
    end.
Qed.

(** The duplicate check of [add_spec]: a token whose one tag names a
    field that no longer holds the default is refused, whatever follows
    the tag. *)
Lemma add_spec_set_twice (d : dice) (spec : string) (tag : ascii) (v : Z) :
  In tag SPEC_ARR ->
  contains tag spec = true ->
  bsum (map (fun x => contains x spec) SPEC_ARR) = 1 ->
  get d tag = OK v -> v <> 0 ->
  add_spec d spec = Err (SetTwice tag).
Proof.
  intros Hin Hc Hsum Hget Hv. unfold add_spec.
  pick_tag Hin; revert Hsum; cbn [map SPEC_ARR]; rewrite Hc;
    tag_cases spec; try discriminate; cbn -[split int isdigit];
    intros _; unfold get in Hget; simpl in Hget; injection Hget as <-;
    (destruct (_ =? 0) eqn:Hcur; [apply Z.eqb_eq in Hcur; congruence|]);
    reflexivity.
Qed.

Lemma add_spec_reroll (d : dice) (digits : string) :
  n_rerolls d = 0 -> isdigit digits = true ->
  add_spec d (String "r" digits) = set d "r" (int digits).
Proof.
  intros H0 Hd. pose proof (isdigit_all_digits _ Hd) as Hall.
  unfold add_spec. cbn [map SPEC_ARR contains].
  rewrite !(contains_all_digits _ digits) by (reflexivity || assumption).
  cbn -[split int isdigit]. rewrite H0. cbn -[split int isdigit].
  rewrite split_tag_digits by (reflexivity || assumption).
  rewrite Hd. reflexivity.
Qed.

Lemma set_reroll (d : dice) (v : Z) :
  set d "r" v = OK (with_n_rerolls d (if v =? 0 then -1 else v)).
Proof. unfold set. simpl. destruct (v =? 0); reflexivity. Qed.

Lemma get_total (d : dice) (tag : ascii) :
  In tag SPEC_ARR -> exists v, get d tag = OK v.
Proof. intros H. pick_tag H; unfold get; simpl; eauto. Qed.

(** After a reroll-count is set the field is never 0. *)
Lemma set_reroll_nonzero (d d' : dice) (v : Z) :
  set d "r" v = OK d' -> n_rerolls d' <> 0.
Proof.
  rewrite set_reroll. intros [= <-]. simpl.
  destruct (v =? 0) eqn:E; [lia|]. apply Z.eqb_neq in E. exact E.
Qed.

Lemma sanitize_inv (d : dice) :
  snd (sanitize d) = OK tt ->
  0 < n_rolls d /\
  truthy (n_rerolls d) = truthy (reroll_threshold d) /\
  reroll_threshold d < n_faces d /\
  n_lowest_dropped d + n_highest_dropped d <= n_rolls d.
Proof.
  unfold sanitize.
  destruct (n_rolls d <=? 0) eqn:H1; [discriminate|].
  destruct (Bool.eqb _ _) eqn:H2; [|discriminate]. cbn [negb].
  destruct (reroll_threshold d >=? n_faces d) eqn:H3; [discriminate|].
  destruct (_ >? _) eqn:H4; [discriminate|]. intros _.
  apply Z.leb_gt in H1. apply Bool.eqb_prop in H2.
  rewrite Z.geb_leb in H3. apply Z.leb_gt in H3.
  rewrite Z.gtb_ltb in H4. apply Z.ltb_ge in H4.
  auto.
Qed.


(** ** What the parser guarantees about every [dice] it builds *)

Lemma dice_init_defaults (roll : string) (d : dice) :
  dice_init roll = OK d ->
  n_rerolls d = 0 /\ reroll_threshold d = 0 /\
  n_lowest_dropped d = 0 /\ n_highest_dropped d = 0 /\
  0 <= n_rolls d /\ 0 <= n_faces d.
Proof.
  unfold dice_init.
  set (arr := match split "d" roll with
              | EmptyString :: rest => "1" :: rest
              | _ => split "d" roll
              end).
  destruct (negb (Nat.eqb (List.length arr) 2) || negb (forallb isdigit arr));
    [discriminate|].
  destruct arr as [|a [|b [|c arr]]]; simpl; try discriminate.
  intros [= <-]. simpl. repeat split; auto using int_nonneg.
Qed.

Lemma dice_init_in_range (roll : string) (d : dice) :
  dice_init roll = OK d -> in_range d.
Proof.
  intros H. apply dice_init_defaults in H as (Hr & Ht & Hl & Hh & Hn & Hf).
  constructor; lia.
Qed.

Lemma set_in_range (d d' : dice) (s : ascii) (v : Z) :
  in_range d -> 0 <= v -> set d s v = OK d' -> in_range d'.
Proof.
  intros [] Hv. unfold set.
  destruct (Ascii.eqb s "r"); simpl.
  - destruct (v =? 0) eqn:E; intros [= <-]; constructor; simpl; lia.
  - destruct (Ascii.eqb s "t"); [intros [= <-]; constructor; simpl; lia|].
    destruct (Ascii.eqb s "l"); [intros [= <-]; constructor; simpl; lia|].
    destruct (Ascii.eqb s "h"); [intros [= <-]; constructor; simpl; lia|].
    discriminate.
Qed.

Lemma add_spec_in_range (d d' : dice) (spec : string) :
  in_range d -> add_spec d spec = OK d' -> in_range d'.
Proof.
  intros Hd H.
  apply add_spec_inv in H
    as (val & prefix & digits & _ & _ & _ & _ & _ & Hset & _).
  eapply set_in_range; eauto using int_nonneg.
Qed.

Lemma with_n_rolls_in_range (d : dice) (v : Z) :
  in_range d -> 0 <= v -> in_range (with_n_rolls d v).
Proof. intros [] Hv. constructor; simpl; assumption. Qed.

Lemma last_opt_In {A} (l : list A) (x : A) : last_opt l = Some x -> In x l.
Proof.
  induction l as [|a [|b l] IH]; simpl; try discriminate.
  - intros [= ->]. auto.
  - intros H. right. apply IH. exact H.
Qed.

Lemma Forall_set_last {A} (P : A -> Prop) (l : list A) (x : A) :
  Forall P l -> P x -> Forall P (set_last l x).
Proof.
  intros Hl Hx. unfold set_last. apply Forall_app. split.
  - rewrite Forall_forall in *. intros y Hy.
    apply Hl. destruct l as [|a l]; [contradiction|].
    rewrite (app_removelast_last a (l := a :: l)) by discriminate.
    apply in_or_app. left. exact Hy.
  - constructor; [exact Hx|constructor].
Qed.

Lemma process_token_in_range (dice_arr dice_arr' : list dice) (spec : string) :
  Forall in_range dice_arr ->
  process_token dice_arr spec = OK dice_arr' ->
  Forall in_range dice_arr'.
Proof.
  intros Hall. unfold process_token.
  destruct (negb (bsum _ =? 1)); [discriminate|].
  destruct (nth 0 _ false).
  { destruct (dice_init spec) as [d|e] eqn:Hd; simpl; [|discriminate].
    intros [= <-]. apply Forall_app. split; [assumption|].
    constructor; [|constructor]. eapply dice_init_in_range; eauto. }
  destruct (last_opt dice_arr) as [cur|] eqn:Hcur; [|discriminate].
  assert (Hc : in_range cur).
  { rewrite Forall_forall in Hall. apply Hall. apply last_opt_In. exact Hcur. }
  assert (Hstep : forall c spec',
             in_range c ->
             (d <- add_spec c spec' ;; OK (set_last dice_arr d))%result
             = OK dice_arr' -> Forall in_range dice_arr').
  { intros c spec' Hcr. destruct (add_spec c spec') as [d|e] eqn:Ha; simpl;
      [|discriminate].
    intros [= <-]. apply Forall_set_last; [assumption|].
    eapply add_spec_in_range; eauto. }
  destruct (any (slice 1 5 _)); [apply Hstep; assumption|].
  destruct (any (slice 5 7 _) && negb (n_rolls cur =? 1)); [discriminate|].
  destruct (nth 5 _ false);
    [apply Hstep; apply with_n_rolls_in_range; [assumption|lia]|].
  destruct (nth 6 _ false);
    [apply Hstep; apply with_n_rolls_in_range; [assumption|lia]|].
  destruct (nth 7 _ false);
    [apply Hstep; apply with_n_rolls_in_range; [assumption|lia]|].
  intros [= <-]. assumption.
Qed.

Lemma process_rolls_in_range (rolls : list string) :
  forall dice_arr dice_arr',
    Forall in_range dice_arr ->
    process_rolls dice_arr rolls = OK dice_arr' ->
    Forall in_range dice_arr'.
Proof.
  induction rolls as [|spec rest IH]; intros arr arr' Hall; simpl.
  - intros [= <-]. assumption.
  - destruct (process_token arr spec) as [arr1|e] eqn:Hstep; simpl;
      [|discriminate].
    apply IH. eapply process_token_in_range; eauto.
Qed.

Lemma parse_in_range (rolls : list string) (dice_arr : list dice) :
  parse rolls = OK dice_arr -> Forall in_range dice_arr.
Proof. apply process_rolls_in_range. constructor. Qed.

(** ** The parser: modifiers and shorthands *)

(** C9.  A [dice] just built has reroll budget 0, which means no reroll.
    Applying the reroll-count modifier with the literal value 0 sets the
    budget to -1, unlimited; with any value N > 0 it sets the budget to N.
    The last part states the same for the token made of "r" and digits. *)
Theorem reroll_zero_means_unlimited :
  (forall roll d, dice_init roll = OK d -> n_rerolls d = 0) /\
  (forall d, set d "r" 0 = OK (with_n_rerolls d (-1))) /\
  (forall d N, 0 < N -> set d "r" N = OK (with_n_rerolls d N)) /\
  (forall d digits,
      n_rerolls d = 0 -> isdigit digits = true ->
      add_spec d (String "r" digits)
      = OK (with_n_rerolls d (if int digits =? 0 then -1 else int digits))).
Proof.
  split; [|split; [|split]].
  - intros roll d H. apply dice_init_defaults in H. tauto.
  - intros d. reflexivity.
  - intros d N HN. rewrite set_reroll.
    destruct (N =? 0) eqn:E; [apply Z.eqb_eq in E; lia|reflexivity].
  - intros d digits H0 Hd. rewrite add_spec_reroll by assumption.
    apply set_reroll.
Qed.

Lemma reroll_zero_means_unlimited_witness :
  n_rerolls (mk_dice 6 1 0 0 0 0) = 0 /\
  set (mk_dice 6 1 0 0 0 0) "r" 0 = OK (mk_dice 6 1 (-1) 0 0 0) /\
  set (mk_dice 6 1 0 0 0 0) "r" 3 = OK (mk_dice 6 1 3 0 0 0) /\
  add_spec (mk_dice 6 1 0 0 0 0) "r0" = OK (mk_dice 6 1 (-1) 0 0 0) /\
  add_spec (mk_dice 6 1 0 0 0 0) "r12" = OK (mk_dice 6 1 12 0 0 0).
Proof.
  destruct reroll_zero_means_unlimited as (Hinit & Hzero & Hpos & Htok).
  split; [apply (Hinit "1d6"); reflexivity|].
  split; [apply (Hzero (mk_dice 6 1 0 0 0 0))|].
  split; [apply (Hpos (mk_dice 6 1 0 0 0 0) 3); lia|].
  split; [apply (Htok (mk_dice 6 1 0 0 0 0) "0"); reflexivity|].
  apply (Htok (mk_dice 6 1 0 0 0 0) "12"); reflexivity.
Defined.

(** C3, as amended.  A second occurrence of a modifier on the same
    [dice] is refused with [SetTwice], a DuplicateModifierError, whatever
    value it carries, provided the first occurrence left the field
    different from 0: that is always so for the reroll count, and for the
    threshold and the two drop counts when their first value was not 0.
    The tokens "1d6" "r1" "r2" are refused in this way. *)
Theorem duplicate_modifier_refused :
  (forall d d1 spec1 spec2 tag,
      In tag SPEC_ARR ->
      contains tag spec1 = true -> add_spec d spec1 = OK d1 ->
      tag = "r"%char \/ get d1 tag <> OK 0 ->
      contains tag spec2 = true ->
      bsum (map (fun x => contains x spec2) SPEC_ARR) = 1 ->
      add_spec d1 spec2 = Err (SetTwice tag) /\
      kind_of (SetTwice tag) = DuplicateModifierError) /\
  parse ["1d6"; "r1"; "r2"] = Err (SetTwice "r").
Proof.
  split; [|reflexivity].
  intros d d1 spec1 spec2 tag Hin Hc1 H1 Hnz Hc2 Hsum.
  split; [|reflexivity].
  destruct (get_total d1 tag Hin) as [v Hv].
  apply (add_spec_set_twice d1 spec2 tag v); try assumption.
  destruct Hnz as [-> | Hnz]; [|congruence].
  apply add_spec_inv in H1
    as (val & prefix & digits & _ & _ & _ & _ & _ & Hset & Huniq).
  rewrite <- (Huniq "r"%char Hin Hc1) in Hset.
  apply set_reroll_nonzero in Hset.
  unfold get in Hv. simpl in Hv. congruence.
Qed.

Lemma duplicate_modifier_refused_witness :
  add_spec (mk_dice 6 1 0 0 3 0) "l2" = Err (SetTwice "l") /\
  add_spec (mk_dice 6 1 (-1) 0 0 0) "r5" = Err (SetTwice "r").
Proof.
  destruct duplicate_modifier_refused as [Hdup _]. split.
  - apply (Hdup (mk_dice 6 1 0 0 0 0) (mk_dice 6 1 0 0 3 0) "l3" "l2" "l"%char);
      try reflexivity.
    + simpl. tauto.
    + right. discriminate.
  - apply (Hdup (mk_dice 6 1 0 0 0 0) (mk_dice 6 1 (-1) 0 0 0) "r0" "r5" "r"%char);
      try reflexivity.
    + simpl. tauto.
    + left. reflexivity.
Defined.

(** After "l0" the field still holds 0, and a second drop-lowest is
    accepted. *)
Lemma zero_valued_modifier_is_overwritten :
  ~ (forall d d1 spec1 spec2 tag,
        In tag SPEC_ARR ->
        contains tag spec1 = true -> add_spec d spec1 = OK d1 ->
        contains tag spec2 = true ->
        bsum (map (fun x => contains x spec2) SPEC_ARR) = 1 ->
        add_spec d1 spec2 = Err (SetTwice tag)).
Proof.
  intros H.
  specialize (H (mk_dice 6 1 0 0 0 0) (mk_dice 6 1 0 0 0 0) "l0" "l1" "l"%char).
  discriminate H; try reflexivity. simpl. tauto.
Qed.

Lemma zero_valued_modifier_can_be_repeated :
  add_spec (mk_dice 6 1 0 0 0 0) "l0" = OK (mk_dice 6 1 0 0 0 0) /\
  add_spec (mk_dice 6 1 0 0 0 0) "l1" = OK (mk_dice 6 1 0 0 1 0) /\
  parse ["1d6"; "l0"; "l1"] = OK [mk_dice 6 1 0 0 1 0] /\
  parse ["1d6"; "t0"; "t3"] = OK [mk_dice 6 1 0 3 0 0] /\
  parse ["1d6"; "h0"; "h1"] = OK [mk_dice 6 1 0 0 0 1].
Proof. repeat split. Qed.

Lemma validated_faces (d : dice) : validated d -> 0 < n_faces d.
Proof.
  intros [Hr Hs]. apply sanitize_inv in Hs as (_ & _ & Ht & _).
  pose proof (threshold_nonneg d Hr). lia.
Qed.

Lemma zero_faces_rejected (d : dice) :
  in_range d -> n_faces d = 0 -> snd (sanitize d) <> OK tt.
Proof.
  intros Hr H0 Hs. assert (validated d) as Hv by (split; assumption).
  apply validated_faces in Hv. lia.
Qed.

Lemma parsed_and_sanitized (rolls : list string) (dice_arr : list dice) (d : dice) :
  parse rolls = OK dice_arr -> In d dice_arr -> snd (sanitize d) = OK tt ->
  validated d.
Proof.
  intros Hp Hin Hs. split; [|exact Hs].
  apply parse_in_range in Hp. rewrite Forall_forall in Hp. auto.
Qed.

(** C10.  Every [dice] built by the parser and accepted by [sanitize]
    has at least one face, although [sanitize] never tests [n_faces]
    against 0: the threshold is never negative and must be below
    [n_faces].  Hence the draw of [roll] is over a non-empty range and its
    result lies in 1..n_faces. *)
Theorem validated_faces_positive
  (rolls : list string) (dice_arr : list dice) (d : dice) :
  parse rolls = OK dice_arr -> In d dice_arr -> snd (sanitize d) = OK tt ->
  1 <= n_faces d /\
  (forall g e, random_choice_range (n_faces d) g <> Raised e) /\
  (forall r, 1 <= r mod n_faces d + 1 <= n_faces d).
Proof.
  intros Hp Hin Hs.
  pose proof (validated_faces d (parsed_and_sanitized _ _ _ Hp Hin Hs)) as Hf.
  split; [lia|]. split.
  - intros g e. unfold random_choice_range.
    destruct (n_faces d <=? 0) eqn:E; [apply Z.leb_le in E; lia|].
    destruct g; discriminate.
  - intros r. pose proof (Z.mod_pos_bound r (n_faces d) Hf). lia.
Qed.

Lemma validated_faces_positive_witness :
  parse ["1d6"] = OK [mk_dice 6 1 0 0 0 0] /\
  snd (sanitize (mk_dice 6 1 0 0 0 0)) = OK tt /\
  1 <= n_faces (mk_dice 6 1 0 0 0 0).
Proof.
  split; [reflexivity|]. split; [reflexivity|].
  apply (validated_faces_positive ["1d6"] [mk_dice 6 1 0 0 0 0]
           (mk_dice 6 1 0 0 0 0)); [reflexivity|simpl; tauto|reflexivity].
Defined.

(** The guard of the shorthands as the code has it: it covers "A" and
    "D". *)
Lemma shorthand_guard
  (dice_arr : list dice) (cur : dice) (spec : string) (tag : ascii) :
  tag = "A"%char \/ tag = "D"%char ->
  contains tag spec = true ->
  bsum (map (fun x => contains x spec) INSTRCTN_ARR) = 1 ->
  last_opt dice_arr = Some cur -> n_rolls cur <> 1 ->
  process_token dice_arr spec = Err ShorthandNeedsOneRoll.
Proof.
  intros Htag Hc Hsum Hlast Hn. unfold process_token.
  apply Z.eqb_neq in Hn.
  revert Hsum. cbn [map INSTRCTN_ARR].
  destruct Htag as [-> | ->]; rewrite Hc; instr_cases spec; try discriminate;
    intros _; cbn; rewrite Hlast, Hn; reflexivity.
Qed.

(** C1, at the input where the code departs from it.  After "2d6" the
    shorthand "E" is accepted and turns the group into three dice with
    the two lowest dropped, while "A" and "D" are refused with
    [ShorthandNeedsOneRoll]: the test on [n_rolls] looks at the slice
    [5:7] of the instruction flags, which leaves "E" out. *)
Theorem elite_skips_roll_count_check :
  parse ["2d6"; "E"] = OK [mk_dice 6 3 0 0 2 0] /\
  parse ["2d6"; "A"] = Err ShorthandNeedsOneRoll /\
  parse ["2d6"; "D"] = Err ShorthandNeedsOneRoll.
Proof. repeat split. Qed.

(** "E" goes through whatever [n_rolls] is. *)
Lemma elite_unguarded (dice_arr : list dice) (cur : dice) (spec : string) :
  contains "E"%char spec = true ->
  bsum (map (fun x => contains x spec) INSTRCTN_ARR) = 1 ->
  last_opt dice_arr = Some cur -> n_lowest_dropped cur = 0 ->
  process_token dice_arr spec
  = OK (set_last dice_arr (with_n_lowest_dropped (with_n_rolls cur 3) 2)).
Proof.
  intros Hc Hsum Hlast Hl. unfold process_token.
  revert Hsum. cbn [map INSTRCTN_ARR]. rewrite Hc.
  instr_cases spec; try discriminate. intros _. cbn -[add_spec].
  rewrite Hlast. unfold add_spec. cbn. rewrite Hl. reflexivity.
Qed.

(** "A" after "1d6" raises nothing. *)
Lemma advantage_on_1d6_is_accepted :
  ~ (exists e, parse ["1d6"; "A"] = Err e /\ kind_of e = SequenceError).
Proof. intros (e & H & _). discriminate H. Qed.

(** C5, as amended.  The tokens "1d6" "A" parse: [n_rolls] is 1 when "A"
    is applied, and the result is the configuration of "2d6" "l1".  The
    advantage shorthand fails with [ShorthandNeedsOneRoll], a
    SequenceError, when [n_rolls] of the current configuration is not 1,
    as after "2d6". *)
Theorem advantage_needs_one_roll :
  parse ["1d6"; "A"] = OK [mk_dice 6 2 0 0 1 0] /\
  parse ["1d6"; "A"] = parse ["2d6"; "l1"] /\
  (forall dice_arr cur spec,
      contains "A"%char spec = true ->
      bsum (map (fun x => contains x spec) INSTRCTN_ARR) = 1 ->
      last_opt dice_arr = Some cur -> n_rolls cur <> 1 ->
      process_token dice_arr spec = Err ShorthandNeedsOneRoll) /\
  kind_of ShorthandNeedsOneRoll = SequenceError.
Proof.
  split; [reflexivity|]. split; [reflexivity|]. split; [|reflexivity].
  intros dice_arr cur spec Hc Hsum Hlast Hn.
  apply (shorthand_guard dice_arr cur spec "A"%char); auto.
Qed.

Lemma advantage_needs_one_roll_witness :
  parse ["2d6"] = OK [mk_dice 6 2 0 0 0 0] /\
  n_rolls (mk_dice 6 2 0 0 0 0) <> 1 /\
  process_token [mk_dice 6 2 0 0 0 0] "A" = Err ShorthandNeedsOneRoll.
Proof.
  split; [reflexivity|]. split; [discriminate|].
  destruct advantage_needs_one_roll as (_ & _ & Hguard & _).
  apply (Hguard [mk_dice 6 2 0 0 0 0] (mk_dice 6 2 0 0 0 0) "A");
    [reflexivity|reflexivity|reflexivity|discriminate].
Defined.

(** ** [roll]: the draw and the rerolls *)

(** [roll] unfolds into the draw followed by the reroll test, as written
    in the source. *)
Lemma roll_unfold (d : dice) (g : tape) :
  roll d g =
  ('(x0, g') <- random_choice_range (n_faces d) g ;;
   let x := x0 + 1 in
   if (x <=? reroll_threshold d) && negb (n_rerolls d =? 0)
   then roll (with_n_rerolls d (n_rerolls d - 1)) g'
   else Done (x, d, g'))%outcome.
Proof.
  unfold random_choice_range.
  destruct g as [|r g']; simpl; destruct (n_faces d <=? 0); reflexivity.
Qed.

Lemma roll_value_bounds (g : tape) :
  forall d v d' g',
    roll d g = Done (v, d', g') -> 1 <= v <= n_faces d.
Proof.
  induction g as [|r g IH]; intros d v d' g'; simpl;
    destruct (n_faces d <=? 0) eqn:Hf; try discriminate.
  apply Z.leb_gt in Hf.
  destruct (_ && _).
  - intros H. apply IH in H. simpl in H. exact H.
  - intros [= <- _ _]. pose proof (Z.mod_pos_bound r (n_faces d) Hf). lia.
Qed.

Lemma roll_never_raises (g : tape) :
  forall d e, 0 < n_faces d -> roll d g <> Raised e.
Proof.
  induction g as [|r g IH]; intros d e Hf; simpl;
    destruct (n_faces d <=? 0) eqn:Hle;
    try (apply Z.leb_le in Hle; lia); try discriminate.
  destruct (_ && _); [|discriminate].
  apply IH. simpl. exact Hf.
Qed.

Lemma with_n_rerolls_same (d : dice) : with_n_rerolls d (n_rerolls d) = d.
Proof. destruct d; reflexivity. Qed.

Lemma with_n_rerolls_twice (d : dice) (a b : Z) :
  with_n_rerolls (with_n_rerolls d a) b = with_n_rerolls d b.
Proof. reflexivity. Qed.

(** Only the reroll counter of the object changes, it never grows, and
    every unit it loses is one more draw taken from the tape. *)
Lemma roll_counter (g : tape) :
  forall d v d' g',
    roll d g = Done (v, d', g') ->
    d' = with_n_rerolls d (n_rerolls d') /\
    n_rerolls d' <= n_rerolls d /\
    (0 <= n_rerolls d -> 0 <= n_rerolls d') /\
    draws g g' = 1 + (n_rerolls d - n_rerolls d').
Proof.
  unfold draws.
  induction g as [|r g IH]; intros d v d' g'; simpl roll;
    destruct (n_faces d <=? 0); try discriminate.
  assert (Hstop : Done (r mod n_faces d + 1, d, g) = Done (v, d', g') ->
                  d' = with_n_rerolls d (n_rerolls d') /\
                  n_rerolls d' <= n_rerolls d /\
                  (0 <= n_rerolls d -> 0 <= n_rerolls d') /\
                  Z.of_nat (List.length (r :: g)) - Z.of_nat (List.length g')
                  = 1 + (n_rerolls d - n_rerolls d')).
  { intros [= <- <- <-]. cbn [List.length]. rewrite Nat2Z.inj_succ.
    rewrite with_n_rerolls_same. repeat split; try reflexivity; lia. }
  destruct (_ <=? _); cbn [andb]; [|exact Hstop].
  destruct (n_rerolls d =? 0) eqn:Hz; cbn [negb]; [exact Hstop|].
  apply Z.eqb_neq in Hz. intros H. apply IH in H.
  destruct H as (Hshape & Hle & Hpos & Hdraws).
  rewrite with_n_rerolls_twice in Hshape.
  change (n_rerolls (with_n_rerolls d (n_rerolls d - 1)))
    with (n_rerolls d - 1) in *.
  cbn [List.length]. rewrite Nat2Z.inj_succ.
  repeat split; try assumption; lia.
Qed.

(** A draw above the threshold ends the rerolls. *)
Lemma roll_returns_on_high_draw (g : tape) :
  forall d,
    0 < n_faces d ->
    Exists (fun r => reroll_threshold d < r mod n_faces d + 1) g ->
    exists v d' g', roll d g = Done (v, d', g').
Proof.
  induction g as [|r g IH]; intros d Hf Hex; [inversion Hex|].
  simpl. destruct (n_faces d <=? 0) eqn:Hle; [apply Z.leb_le in Hle; lia|].
  destruct (r mod n_faces d + 1 <=? reroll_threshold d) eqn:Hlow; cbn [andb];
    [|eauto].
  destruct (n_rerolls d =? 0); cbn [negb]; [eauto|].
  apply IH; [exact Hf|].
  inversion Hex as [? ? Hhd|? ? Htl]; subst; [|exact Htl].
  apply Z.leb_le in Hlow. lia.
Qed.

(** A finite budget ends them too, once the tape is longer than it. *)
Lemma roll_returns_on_budget (g : tape) :
  forall d,
    0 < n_faces d ->
    0 <= n_rerolls d < Z.of_nat (List.length g) ->
    exists v d' g', roll d g = Done (v, d', g').
Proof.
  induction g as [|r g IH]; intros d Hf Hb; cbn [List.length] in Hb; [lia|].
  simpl. destruct (n_faces d <=? 0) eqn:Hle; [apply Z.leb_le in Hle; lia|].
  destruct (r mod n_faces d + 1 <=? reroll_threshold d); cbn [andb]; [|eauto].
  destruct (n_rerolls d =? 0) eqn:Hz; cbn [negb]; [eauto|].
  apply Z.eqb_neq in Hz. apply IH; simpl; lia.
Qed.

(** ** [roll_times]: the dice of a group *)

Lemma roll_times_facts (n : nat) :
  forall d g rolls d' g',
    roll_times n d g = Done (rolls, d', g') ->
    List.length rolls = n /\
    Forall (fun v => 1 <= v <= n_faces d) rolls /\
    d' = with_n_rerolls d (n_rerolls d') /\
    n_rerolls d' <= n_rerolls d /\
    (0 <= n_rerolls d -> 0 <= n_rerolls d') /\
    draws g g' = Z.of_nat n + (n_rerolls d - n_rerolls d').
Proof.
  induction n as [|n IH]; intros d g rolls d' g'; cbn [roll_times].
  - intros [= <- <- <-]. unfold draws. rewrite with_n_rerolls_same.
    repeat split; auto; lia.
  - destruct (roll d g) as [[[x d1] g1]| |] eqn:Hroll; cbn [obind];
      try discriminate.
    destruct (roll_times n d1 g1) as [[[xs d2] g2]| |] eqn:Hrest; cbn [obind];
      try discriminate.
    intros [= <- <- <-].
    pose proof (roll_value_bounds _ _ _ _ _ Hroll) as Hv.
    apply roll_counter in Hroll as (Hs1 & Hle1 & Hp1 & Hd1).
    apply IH in Hrest as (Hlen & Hall & Hs2 & Hle2 & Hp2 & Hd2).
    assert (Hfaces : n_faces d1 = n_faces d) by (rewrite Hs1; reflexivity).
    rewrite Hfaces in Hall.
    unfold draws in *. cbn [List.length].
    repeat split; try lia; auto.
    rewrite Hs2, Hs1. reflexivity.
Qed.

Lemma high_draws_with_n_rerolls (d : dice) (v : Z) (g : tape) :
  high_draws (with_n_rerolls d v) g = high_draws d g.
Proof. reflexivity. Qed.

(** [roll] returns at the first high draw at the latest, and uses up at
    most one of them. *)
Lemma roll_returns (g : tape) :
  forall d,
    0 < n_faces d -> (1 <= high_draws d g)%nat ->
    exists v d' g',
      roll d g = Done (v, d', g') /\
      (high_draws d g <= S (high_draws d g'))%nat.
Proof.
  induction g as [|r g IH]; intros d Hf Hh;
    [unfold high_draws in Hh; cbn [filter List.length] in Hh; lia|].
  cbn [roll]. destruct (n_faces d <=? 0) eqn:Hle; [apply Z.leb_le in Hle; lia|].
  unfold high_draws in *. cbn [filter] in *.
  destruct (r mod n_faces d + 1 <=? reroll_threshold d) eqn:Hlow; cbn [andb].
  - assert (Hnot : (reroll_threshold d <? r mod n_faces d + 1) = false).
    { apply Z.ltb_ge. apply Z.leb_le in Hlow. exact Hlow. }
    rewrite Hnot in *.
    destruct (n_rerolls d =? 0); cbn [negb].
    + do 3 eexists. split; [reflexivity|]. lia.
    + destruct (IH (with_n_rerolls d (n_rerolls d - 1)) Hf Hh)
        as (v & d' & g' & Hroll & Hcount).
      exists v, d', g'. split; [exact Hroll|exact Hcount].
  - do 3 eexists. split; [reflexivity|].
    destruct (reroll_threshold d <? r mod n_faces d + 1); cbn [List.length]; lia.
Qed.

Lemma roll_times_returns (n : nat) :
  forall d g,
    0 < n_faces d -> (n <= high_draws d g)%nat ->
    exists rolls d' g', roll_times n d g = Done (rolls, d', g').
Proof.
  induction n as [|n IH]; intros d g Hf Hh; cbn [roll_times]; [eauto|].
  destruct (roll_returns g d Hf) as (v & d1 & g1 & Hroll & Hcount); [lia|].
  rewrite Hroll. cbn [obind].
  pose proof (roll_counter _ _ _ _ _ Hroll) as (Hshape & _).
  destruct (IH d1 g1) as (rolls & d2 & g2 & Hrest).
  - rewrite Hshape. exact Hf.
  - rewrite Hshape, high_draws_with_n_rerolls. lia.
  - rewrite Hrest. cbn [obind]. eauto.
Qed.

(** ** Dropping the extremes *)

Lemma fold_min_spec (l : list Z) :
  forall x, let m := fold_left Z.min l x in
            In m (x :: l) /\ m <= x /\ Forall (fun y => m <= y) l.
Proof.
  induction l as [|a l IH]; intros x; cbn [fold_left].
  - simpl. repeat split; auto; lia.
  - destruct (IH (Z.min x a)) as (Hin & Hle & Hall). cbv zeta.
    repeat split.
    + destruct Hin as [Hin|Hin]; [|right; right; exact Hin].
      rewrite <- Hin. destruct (Z.min_spec x a) as [[_ ->]|[_ ->]]; simpl; auto.
    + lia.
    + constructor; [lia|exact Hall].
Qed.

Lemma fold_max_spec (l : list Z) :
  forall x, let m := fold_left Z.max l x in
            In m (x :: l) /\ x <= m /\ Forall (fun y => y <= m) l.
Proof.
  induction l as [|a l IH]; intros x; cbn [fold_left].
  - simpl. repeat split; auto; lia.
  - destruct (IH (Z.max x a)) as (Hin & Hle & Hall). cbv zeta.
    repeat split.
    + destruct Hin as [Hin|Hin]; [|right; right; exact Hin].
      rewrite <- Hin. destruct (Z.max_spec x a) as [[_ ->]|[_ ->]]; simpl; auto.
    + lia.
    + constructor; [lia|exact Hall].
Qed.

Lemma list_min_spec (l : list Z) :
  l <> [] ->
  exists m, list_min l = OK m /\ In m l /\ Forall (fun y => m <= y) l.
Proof.
  destruct l as [|x l]; [congruence|]. intros _.
  destruct (fold_min_spec l x) as (Hin & Hle & Hall).
  eexists. split; [reflexivity|]. split; [exact Hin|].
  constructor; assumption.
Qed.

Lemma list_max_spec (l : list Z) :
  l <> [] ->
  exists m, list_max l = OK m /\ In m l /\ Forall (fun y => y <= m) l.
Proof.
  destruct l as [|x l]; [congruence|]. intros _.
  destruct (fold_max_spec l x) as (Hin & Hle & Hall).
  eexists. split; [reflexivity|]. split; [exact Hin|].
  constructor; assumption.
Qed.

(** [rolls.remove(x)] takes out one occurrence of a value that is there. *)
Lemma remove_first_spec (x : Z) (l : list Z) :
  In x l -> exists l', remove_first x l = OK l' /\ Permutation l (x :: l').
Proof.
  induction l as [|y l IH]; [contradiction|]. intros Hin. simpl.
  destruct (y =? x) eqn:E.
  - apply Z.eqb_eq in E. subst. eauto.
  - apply Z.eqb_neq in E. destruct Hin as [Hin|Hin]; [congruence|].
    destruct (IH Hin) as (l' & -> & Hperm). simpl.
    eexists. split; [reflexivity|].
    rewrite Hperm. apply perm_swap.
Qed.

Lemma drop_lowest_spec (n : nat) :
  forall rolls,
    (n <= List.length rolls)%nat ->
    exists lows rest,
      drop_lowest n rolls = OK rest /\
      List.length lows = n /\
      Permutation rolls (lows ++ rest) /\
      Forall (fun x => Forall (fun y => x <= y) rest) lows.
Proof.
  induction n as [|n IH]; intros rolls Hlen.
  - exists [], rolls. simpl. auto.
  - destruct (list_min_spec rolls) as (m & Hm & Hin & Hle).
    { destruct rolls; [simpl in Hlen; lia|discriminate]. }
    destruct (remove_first_spec m rolls Hin) as (rolls' & Hrm & Hperm).
    destruct (IH rolls') as (lows & rest & Hdrop & Hl & Hp & Hlow).
    { apply Permutation_length in Hperm. simpl in Hperm. lia. }
    exists (m :: lows), rest. cbn [drop_lowest]. rewrite Hm. cbn [rbind].
    rewrite Hrm. cbn [rbind]. split; [exact Hdrop|].
    split; [simpl; lia|]. split.
    + rewrite Hperm. simpl. constructor. exact Hp.
    + constructor; [|exact Hlow].
      rewrite Forall_forall in *. intros y Hy. apply Hle.
      apply (Permutation_in _ (Permutation_sym Hperm)). right.
      apply (Permutation_in _ (Permutation_sym Hp)).
      apply in_or_app. right. exact Hy.
Qed.

Lemma drop_highest_spec (n : nat) :
  forall rolls,
    (n <= List.length rolls)%nat ->
    exists highs rest,
      drop_highest n rolls = OK rest /\
      List.length highs = n /\
      Permutation rolls (highs ++ rest) /\
      Forall (fun x => Forall (fun y => y <= x) rest) highs.
Proof.
  induction n as [|n IH]; intros rolls Hlen.
  - exists [], rolls. simpl. auto.
  - destruct (list_max_spec rolls) as (m & Hm & Hin & Hle).
    { destruct rolls; [simpl in Hlen; lia|discriminate]. }
    destruct (remove_first_spec m rolls Hin) as (rolls' & Hrm & Hperm).
    destruct (IH rolls') as (highs & rest & Hdrop & Hl & Hp & Hhigh).
    { apply Permutation_length in Hperm. simpl in Hperm. lia. }
    exists (m :: highs), rest. cbn [drop_highest]. rewrite Hm. cbn [rbind].
    rewrite Hrm. cbn [rbind]. split; [exact Hdrop|].
    split; [simpl; lia|]. split.
    + rewrite Hperm. simpl. constructor. exact Hp.
    + constructor; [|exact Hhigh].
      rewrite Forall_forall in *. intros y Hy. apply Hle.
      apply (Permutation_in _ (Permutation_sym Hperm)). right.
      apply (Permutation_in _ (Permutation_sym Hp)).
      apply in_or_app. right. exact Hy.
Qed.

(** ** Rolling one die, rolling a group *)

(** C8.  For a validated configuration, whenever [roll] returns, the
    value it returns lies in 1..n_faces.  Moreover [roll] raises no
    exception, and it does return when the tape holds a draw above the
    threshold, or when the budget is finite and the tape longer than it. *)
Theorem roll_within_faces (d : dice) :
  validated d ->
  (forall g v d' g', roll d g = Done (v, d', g') -> 1 <= v <= n_faces d) /\
  (forall g e, roll d g <> Raised e) /\
  (forall g,
      Exists (fun r => reroll_threshold d < r mod n_faces d + 1) g ->
      exists v d' g', roll d g = Done (v, d', g')) /\
  (forall g,
      0 <= n_rerolls d < Z.of_nat (List.length g) ->
      exists v d' g', roll d g = Done (v, d', g')).
Proof.
  intros Hv. pose proof (validated_faces d Hv) as Hf.
  split; [intros g; apply roll_value_bounds|].
  split; [intros g e; apply roll_never_raises; exact Hf|].
  split; intros g H.
  - apply roll_returns_on_high_draw; assumption.
  - apply roll_returns_on_budget; assumption.
Qed.

Lemma roll_within_faces_witness :
  validated (mk_dice 6 1 1 1 0 0) /\
  roll (mk_dice 6 1 1 1 0 0) [0; 4] = Done (5, mk_dice 6 1 0 1 0 0, []) /\
  1 <= 5 <= n_faces (mk_dice 6 1 1 1 0 0).
Proof.
  assert (Hv : validated (mk_dice 6 1 1 1 0 0)).
  { split; [constructor; simpl; lia|reflexivity]. }
  split; [exact Hv|]. split; [reflexivity|].
  destruct (roll_within_faces (mk_dice 6 1 1 1 0 0) Hv) as (Hb & _).
  apply (Hb [0; 4] 5 (mk_dice 6 1 0 1 0 0) []). reflexivity.
Defined.

Lemma roll_n_inv (d : dice) (g : tape) (total : Z) (d' : dice) (g' : tape) :
  roll_n d g = Done (total, d', g') ->
  exists rolls,
    roll_times (Z.to_nat (n_rolls d)) d g = Done (rolls, d', g') /\
    drop_and_sum d' rolls = OK total.
Proof.
  unfold roll_n.
  destruct (roll_times _ d g) as [[[rolls d1] g1]| |]; cbn [obind];
    try discriminate.
  destruct (drop_and_sum d1 rolls) as [t|e] eqn:Hsum; cbn [lift obind];
    try discriminate.
  intros [= <- <- <-]. eauto.
Qed.

(** C2, as amended.  For a validated configuration with reroll budget
    N > 0, the dice of a group share the budget within one trial:
    [roll_n] takes one draw per die plus one per reroll, the rerolls of
    the whole group together are the N minus what is left of the budget,
    hence at most N. *)
Theorem reroll_budget_shared_by_group
  (d : dice) (g : tape) (total : Z) (d' : dice) (g' : tape) :
  validated d -> 0 < n_rerolls d ->
  roll_n d g = Done (total, d', g') ->
  0 <= n_rerolls d' <= n_rerolls d /\
  draws g g' = n_rolls d + (n_rerolls d - n_rerolls d').
Proof.
  intros [Hr Hs] HN H. apply roll_n_inv in H as (rolls & Ht & _).
  apply roll_times_facts in Ht as (_ & _ & _ & Hle & Hpos & Hd).
  rewrite Z2Nat.id in Hd by (apply rolls_nonneg; exact Hr).
  split; [split; [apply Hpos; lia|exact Hle]|exact Hd].
Qed.

Lemma reroll_budget_shared_by_group_witness :
  validated (mk_dice 6 2 1 1 0 0) /\
  roll_n (mk_dice 6 2 1 1 0 0) [0; 0; 0; 4]
  = Done (2, mk_dice 6 2 0 1 0 0, [4]) /\
  draws [0; 0; 0; 4] [4] = 2 + (1 - 0).
Proof.
  assert (Hv : validated (mk_dice 6 2 1 1 0 0)).
  { split; [constructor; simpl; lia|reflexivity]. }
  split; [exact Hv|]. split; [reflexivity|].
  apply (reroll_budget_shared_by_group
           (mk_dice 6 2 1 1 0 0) [0; 0; 0; 4] 2 (mk_dice 6 2 0 1 0 0) [4]);
    [exact Hv|simpl; lia|reflexivity].
Defined.

(** The budget is not an allowance of each die: with one reroll allowed
    on a 1, and draws showing 1, 1, 1, 5, the first die rerolls once, and
    the second die keeps its 1 where a die with a budget of its own would
    have rerolled into the 5. *)
Lemma budget_is_not_per_die :
  ~ (forall d g,
        validated d -> 0 < n_rerolls d ->
        forall rolls d' g',
          roll_times (Z.to_nat (n_rolls d)) d g = Done (rolls, d', g') ->
          exists g'',
            roll_times_per_die (Z.to_nat (n_rolls d)) d g = Done (rolls, g'')).
Proof.
  intros H.
  assert (Hv : validated (mk_dice 6 2 1 1 0 0)).
  { split; [constructor; simpl; lia|reflexivity]. }
  destruct (H (mk_dice 6 2 1 1 0 0) [0; 0; 0; 4] Hv ltac:(simpl; lia)
              [1; 1] (mk_dice 6 2 0 1 0 0) [4] eq_refl) as [g'' Hg].
  discriminate Hg.
Qed.

Lemma second_die_finds_budget_spent :
  validated (mk_dice 6 2 1 1 0 0) /\
  roll_times 2 (mk_dice 6 2 1 1 0 0) [0; 0; 0; 4]
  = Done ([1; 1], mk_dice 6 2 0 1 0 0, [4]) /\
  roll_times_per_die 2 (mk_dice 6 2 1 1 0 0) [0; 0; 0; 4]
  = Done ([1; 5], []) /\
  roll_n (mk_dice 6 2 1 1 0 0) [0; 0; 0; 4]
  = Done (2, mk_dice 6 2 0 1 0 0, [4]).
Proof.
  split; [split; [constructor; simpl; lia|reflexivity]|].
  repeat split.
Qed.

(** What [roll_n] does with the results of its dice. *)
Lemma roll_n_after_rolls
  (d : dice) (g : tape) (rolls : list Z) (d' : dice) (g' : tape) :
  validated d ->
  roll_times (Z.to_nat (n_rolls d)) d g = Done (rolls, d', g') ->
  Z.of_nat (List.length rolls) = n_rolls d /\
  exists lows rest highs kept,
    drop_lowest (Z.to_nat (n_lowest_dropped d)) rolls = OK rest /\
    drop_highest (Z.to_nat (n_highest_dropped d)) rest = OK kept /\
    Z.of_nat (List.length lows) = n_lowest_dropped d /\
    Z.of_nat (List.length highs) = n_highest_dropped d /\
    Permutation rolls (lows ++ rest) /\
    Permutation rest (highs ++ kept) /\
    Forall (fun x => Forall (fun y => x <= y) rest) lows /\
    Forall (fun x => Forall (fun y => y <= x) kept) highs /\
    roll_n d g = Done (zsum kept, d', g').
Proof.
  intros [Hr Hs] Ht. pose proof Ht as Hfacts.
  apply roll_times_facts in Hfacts as (Hlen & _ & Hshape & _).
  apply sanitize_inv in Hs as (Hn & _ & _ & Hdrop).
  destruct Hr as [_ _ _ _ Hl Hh].
  split; [rewrite Hlen; apply Z2Nat.id; lia|].
  destruct (drop_lowest_spec (Z.to_nat (n_lowest_dropped d)) rolls)
    as (lows & rest & Hlow & Hll & Hpl & Hol); [lia|].
  destruct (drop_highest_spec (Z.to_nat (n_highest_dropped d)) rest)
    as (highs & kept & Hhigh & Hlh & Hph & Hoh).
  { apply Permutation_length in Hpl. rewrite length_app in Hpl. lia. }
  exists lows, rest, highs, kept.
  repeat (split; [first [assumption | lia]|]).
  unfold roll_n. rewrite Ht. cbn [obind]. unfold drop_and_sum.
  rewrite Hshape. cbn [n_lowest_dropped n_highest_dropped with_n_rerolls].
  rewrite Hlow. cbn [rbind]. rewrite Hhigh. reflexivity.
Qed.

(** C7.  For a validated configuration [roll_n] calls [roll] [n_rolls]
    times; once these calls have produced their results, it returns the
    sum of what is left after removing [n_lowest_dropped] values, each
    the minimum at the time of its removal, and then [n_highest_dropped]
    values, each the maximum at that time: the removed lows are below
    everything that stays, the removed highs above it.  It does return
    when the tape holds [n_rolls] draws above the threshold.  On the
    results 1, 2, 3, 4 with one lowest and one highest dropped the sum
    is 5. *)
Theorem roll_n_drops_and_sums (d : dice) :
  validated d ->
  (forall g rolls d' g',
      roll_times (Z.to_nat (n_rolls d)) d g = Done (rolls, d', g') ->
      Z.of_nat (List.length rolls) = n_rolls d /\
      exists lows rest highs kept,
        drop_lowest (Z.to_nat (n_lowest_dropped d)) rolls = OK rest /\
        drop_highest (Z.to_nat (n_highest_dropped d)) rest = OK kept /\
        Z.of_nat (List.length lows) = n_lowest_dropped d /\
        Z.of_nat (List.length highs) = n_highest_dropped d /\
        Permutation rolls (lows ++ rest) /\
        Permutation rest (highs ++ kept) /\
        Forall (fun x => Forall (fun y => x <= y) rest) lows /\
        Forall (fun x => Forall (fun y => y <= x) kept) highs /\
        roll_n d g = Done (zsum kept, d', g')) /\
  (forall g,
      (Z.to_nat (n_rolls d) <= high_draws d g)%nat ->
      exists total d' g', roll_n d g = Done (total, d', g')) /\
  drop_and_sum (mk_dice 6 4 0 0 1 1) [1; 2; 3; 4] = OK 5.
Proof.
  intros Hv. split; [|split; [|reflexivity]].
  - intros g rolls d' g'. apply roll_n_after_rolls. exact Hv.
  - intros g Hg.
    destruct (roll_times_returns _ d g (validated_faces d Hv) Hg)
      as (rolls & d' & g' & Ht).
    destruct (roll_n_after_rolls d g rolls d' g' Hv Ht)
      as (_ & _ & _ & _ & kept & _ & _ & _ & _ & _ & _ & _ & _ & Hn).
    eauto.
Qed.

Lemma roll_n_drops_and_sums_witness :
  validated (mk_dice 6 4 0 0 1 1) /\
  roll_times 4 (mk_dice 6 4 0 0 1 1) [0; 1; 2; 3]
  = Done ([1; 2; 3; 4], mk_dice 6 4 0 0 1 1, []) /\
  Nat.le 4 (high_draws (mk_dice 6 4 0 0 1 1) [0; 1; 2; 3]) /\
  roll_n (mk_dice 6 4 0 0 1 1) [0; 1; 2; 3]
  = Done (5, mk_dice 6 4 0 0 1 1, []).
Proof.
  assert (Hv : validated (mk_dice 6 4 0 0 1 1)).
  { split; [constructor; simpl; lia|reflexivity]. }
  split; [exact Hv|]. split; [reflexivity|].
  split; [vm_compute; apply le_n|].
  destruct (roll_n_drops_and_sums (mk_dice 6 4 0 0 1 1) Hv)
    as (Hsum & Hret & _).
  destruct (Hret [0; 1; 2; 3]) as (total & d' & g' & Hdone);
    [vm_compute; apply le_n|].
  destruct (Hsum [0; 1; 2; 3] [1; 2; 3; 4] (mk_dice 6 4 0 0 1 1) [] eq_refl)
    as (_ & lows & rest & highs & kept
        & Hlow & Hhigh & _ & _ & _ & _ & _ & _ & Hn).
  injection Hlow as <-. injection Hhigh as <-. exact Hn.
Defined.

(** ** The simulation loops *)

Lemma roll_each_length (ds : list dice) :
  forall g row used g',
    roll_each ds g = Done (row, used, g') ->
    List.length row = List.length ds.
Proof.
  induction ds as [|d ds IH]; intros g row used g'; cbn [roll_each].
  - intros [= <- _ _]. reflexivity.
  - destruct (roll_n d g) as [[[t d1] g1]| |]; cbn [obind]; try discriminate.
    destruct (roll_each ds g1) as [[[ts ds1] g2]| |] eqn:Hrest; cbn [obind];
      try discriminate.
    intros [= <- _ _]. cbn [List.length]. f_equal. eapply IH; eauto.
Qed.

Lemma explicit_trial_inv (dice_arr : list dice) (g : tape)
  (row : list Z) (dice_arr' : list dice) (g' : tape) :
  explicit_trial dice_arr g = Done (row, dice_arr', g') ->
  dice_arr' = dice_arr /\
  exists used, roll_each dice_arr g = Done (row, used, g').
Proof.
  unfold explicit_trial, deepcopy.
  destruct (roll_each dice_arr g) as [[[r used] g1]| |]; cbn [obind];
    try discriminate.
  intros [= <- <- <-]. eauto.
Qed.

Lemma explicit_loop_fresh (n : nat) :
  forall dice_arr g rows dice_arr' g',
    explicit_loop n dice_arr g = Done (rows, dice_arr', g') ->
    dice_arr' = dice_arr /\ List.length rows = n /\
    fresh_trials dice_arr g rows g'.
Proof.
  induction n as [|n IH]; intros dice_arr g rows dice_arr' g';
    cbn [explicit_loop].
  - intros [= <- <- <-]. repeat split. constructor.
  - destruct (explicit_trial dice_arr g) as [[[row arr1] g1]| |] eqn:Htrial;
      cbn [obind]; try discriminate.
    destruct (explicit_loop n arr1 g1) as [[[rs arr2] g2]| |] eqn:Hrest;
      cbn [obind]; try discriminate.
    intros [= <- <- <-].
    apply explicit_trial_inv in Htrial as (-> & used & Hroll).
    apply IH in Hrest as (-> & Hlen & Hfresh).
    repeat split; [simpl; congruence|].
    econstructor; eauto.
Qed.

(** The last [m] trials of a run are a run of [m] trials of their own,
    started where the first [n] trials left the tape. *)
Lemma explicit_loop_app (n m : nat) :
  forall dice_arr g rows dice_arr' g',
    explicit_loop (n + m) dice_arr g = Done (rows, dice_arr', g') ->
    exists rows1 rows2 g1,
      explicit_loop n dice_arr g = Done (rows1, dice_arr, g1) /\
      explicit_loop m dice_arr g1 = Done (rows2, dice_arr, g') /\
      rows = rows1 ++ rows2.
Proof.
  induction n as [|n IH]; intros dice_arr g rows dice_arr' g' H.
  - cbn [Nat.add] in H. pose proof H as H'.
    apply explicit_loop_fresh in H' as (-> & _).
    exists [], rows, g. repeat split. exact H.
  - cbn [Nat.add explicit_loop] in *.
    destruct (explicit_trial dice_arr g) as [[[row arr1] g1]| |] eqn:Htrial;
      cbn [obind] in *; try discriminate.
    pose proof (explicit_trial_inv _ _ _ _ _ Htrial) as (-> & _).
    destruct (explicit_loop (n + m) dice_arr g1) as [[[rs arr2] g2]| |]
      eqn:Hrest; cbn [obind] in H; try discriminate.
    injection H as <- <- <-.
    apply IH in Hrest as (rows1 & rows2 & gm & H1 & H2 & ->).
    rewrite H1. cbn [obind].
    exists (row :: rows1), rows2, gm. repeat split. exact H2.
Qed.

Lemma fresh_trials_rows (dice_arr : list dice) (g g' : tape)
  (rows : list (list Z)) :
  fresh_trials dice_arr g rows g' ->
  Forall (fun row => List.length row = List.length dice_arr) rows.
Proof.
  induction 1 as [|g g1 g2 row used rows Hroll _ IH]; constructor;
    [eapply roll_each_length; eauto|exact IH].
Qed.

Lemma add_at_app (pre : list Z) (s v : Z) (rest : list Z) :
  add_at (List.length pre) v (pre ++ s :: rest) = OK (pre ++ (s + v) :: rest).
Proof.
  induction pre as [|p pre IH]; simpl; [reflexivity|].
  rewrite IH. reflexivity.
Qed.

(** One pass of the frequentist loop over the dice is one trial: the
    dice are rolled as [roll_each] rolls them, each total added to its
    own running sum. *)
Lemma freq_each_inv (ds : list dice) :
  forall pre mid g sum_arr' g',
    List.length mid = List.length ds ->
    freq_each (List.length pre) ds (pre ++ mid) g = Done (sum_arr', g') ->
    exists row used,
      roll_each ds g = Done (row, used, g') /\
      sum_arr' = pre ++ add_row mid row.
Proof.
  induction ds as [|d ds IH]; intros pre mid g sum_arr' g' Hlen;
    cbn [freq_each roll_each].
  - intros [= <- <-]. destruct mid; [|discriminate].
    exists [], []. split; reflexivity.
  - destruct mid as [|s mid]; [discriminate|]. injection Hlen as Hlen.
    unfold deepcopy.
    destruct (roll_n d g) as [[[t d1] g1]| |]; cbn [obind]; try discriminate.
    rewrite add_at_app. cbn [lift obind].
    replace (pre ++ (s + t) :: mid) with ((pre ++ [s + t]) ++ mid)
      by (rewrite <- app_assoc; reflexivity).
    replace (S (List.length pre)) with (List.length (pre ++ [s + t]))
      by (rewrite length_app; simpl; lia).
    intros H. apply IH in H as (row & used & Hroll & ->); [|exact Hlen].
    rewrite Hroll. cbn [obind].
    exists (t :: row), (d1 :: used). split; [reflexivity|].
    rewrite <- app_assoc. reflexivity.
Qed.

Lemma add_row_length (sum_arr row : list Z) :
  List.length (add_row sum_arr row) = List.length sum_arr.
Proof.
  revert row. induction sum_arr as [|s sum_arr IH]; intros [|v row]; simpl;
    auto.
Qed.

Lemma freq_loop_fresh (n : nat) :
  forall dice_arr sum_arr g sum_arr' dice_arr' g',
    List.length sum_arr = List.length dice_arr ->
    freq_loop n dice_arr sum_arr g = Done (sum_arr', dice_arr', g') ->
    dice_arr' = dice_arr /\
    exists rows,
      List.length rows = n /\
      fresh_trials dice_arr g rows g' /\
      sum_arr' = fold_left add_row rows sum_arr.
Proof.
  induction n as [|n IH]; intros dice_arr sum_arr g sum_arr' dice_arr' g' Hlen;
    cbn [freq_loop].
  - intros [= <- <- <-]. split; [reflexivity|].
    exists []. repeat split. constructor.
  - destruct (freq_each 0 dice_arr sum_arr g) as [[sums1 g1]| |] eqn:Hpass;
      cbn [obind]; try discriminate.
    apply (freq_each_inv dice_arr [] sum_arr) in Hpass
      as (row & used & Hroll & ->); [|exact Hlen].
    intros H. apply IH in H as (-> & rows & Hrows & Hfresh & ->).
    2:{ cbn [app]. rewrite add_row_length. exact Hlen. }
    split; [reflexivity|].
    exists (row :: rows). repeat split; [simpl; congruence|].
    econstructor; eauto.
Qed.

(** C6.  In both loops the list of configurations is the same after any
    number of trials as before, and every trial rolls the configurations
    with the reroll budgets they had when validated: the rows of the
    explicit mode, and the rows summed up by the frequentist mode, are
    [fresh_trials] of [dice_arr].  Of the trials already run only the
    position on the tape matters to those that follow: the last [m]
    trials of a run are what a new run of [m] trials gives from there. *)
Theorem trials_start_fresh (dice_arr : list dice) :
  (forall n g rows dice_arr' g',
      explicit_loop n dice_arr g = Done (rows, dice_arr', g') ->
      dice_arr' = dice_arr /\ fresh_trials dice_arr g rows g') /\
  (forall n g sum_arr' dice_arr' g',
      freq_loop n dice_arr (map (fun _ => 0) dice_arr) g
      = Done (sum_arr', dice_arr', g') ->
      dice_arr' = dice_arr /\
      exists rows,
        fresh_trials dice_arr g rows g' /\
        sum_arr' = fold_left add_row rows (map (fun _ => 0) dice_arr)) /\
  (forall n m g rows dice_arr' g',
      explicit_loop (n + m) dice_arr g = Done (rows, dice_arr', g') ->
      exists rows1 rows2 g1,
        explicit_loop n dice_arr g = Done (rows1, dice_arr, g1) /\
        explicit_loop m dice_arr g1 = Done (rows2, dice_arr, g') /\
        rows = rows1 ++ rows2).
Proof.
  split; [|split].
  - intros n g rows dice_arr' g' H.
    apply explicit_loop_fresh in H as (? & _ & ?). auto.
  - intros n g sum_arr' dice_arr' g' H.
    apply freq_loop_fresh in H as (? & rows & _ & ? & ?);
      [eauto|apply length_map].
  - intros n m. apply explicit_loop_app.
Qed.

Lemma trials_start_fresh_witness :
  explicit_loop 2 [mk_dice 6 2 1 1 0 0] [0; 0; 0; 0; 0; 0; 3]
  = Done ([[2]; [2]], [mk_dice 6 2 1 1 0 0], [3]) /\
  fresh_trials [mk_dice 6 2 1 1 0 0] [0; 0; 0; 0; 0; 0; 3] [[2]; [2]] [3].
Proof.
  split; [reflexivity|].
  destruct (trials_start_fresh [mk_dice 6 2 1 1 0 0]) as (Hexp & _ & _).
  apply (Hexp 2%nat [0; 0; 0; 0; 0; 0; 3] [[2]; [2]] [mk_dice 6 2 1 1 0 0] [3]).
  reflexivity.
Defined.

(** Within a trial the object that is rolled does lose its budget; the
    next trial rolls a new copy and finds the budget whole again: each
    of the two trials below rerolls once. *)
Lemma budget_spent_on_the_copy_only :
  roll_each [mk_dice 6 2 1 1 0 0] [0; 0; 0; 0; 0; 0; 3]
  = Done ([2], [mk_dice 6 2 0 1 0 0], [0; 0; 0; 3]) /\
  roll_each [mk_dice 6 2 0 1 0 0] [0; 0; 0; 3]
  = Done ([2], [mk_dice 6 2 0 1 0 0], [0; 3]) /\
  explicit_loop 2 [mk_dice 6 2 1 1 0 0] [0; 0; 0; 0; 0; 0; 3]
  = Done ([[2]; [2]], [mk_dice 6 2 1 1 0 0], [3]).
Proof. repeat split. Qed.

Lemma freq_loop_single_plain_die (n : nat) :
  forall s rest,
    freq_loop n [mk_dice 6 1 0 0 0 0] [s] (repeat 0 n ++ rest)
    = Done ([s + Z.of_nat n], [mk_dice 6 1 0 0 0 0], rest).
Proof.
  induction n as [|n IH]; intros s rest.
  - cbn [freq_loop repeat app Z.of_nat]. rewrite Z.add_0_r. reflexivity.
  - cbn [repeat app freq_loop].
    change (freq_each 0 [mk_dice 6 1 0 0 0 0] [s] (0 :: repeat 0 n ++ rest))
      with (Done (A := list Z * tape) ([s + 1], repeat 0 n ++ rest)).
    cbn [obind]. rewrite IH. rewrite Nat2Z.inj_succ.
    replace (s + 1 + Z.of_nat n) with (s + Z.succ (Z.of_nat n)) by lia.
    reflexivity.
Qed.

(** C4, at the input where the code departs from it.  A count of 100000
    given with [ntests], without [freqtest], takes the frequentist
    branch, since the branch is chosen by comparing [n_tests] with
    [N_FREQTEST]: for "1d6" and draws that all show 1, [main] prints the
    sums to be averaged and no rows. *)
Theorem explicit_count_of_100000_prints_averages (rest : tape) :
  main (mk_args ["1d6"] (Some 100000) false)
       (repeat 0 (Z.to_nat N_FREQTEST) ++ rest)
  = Done (mk_printed [] [(1, 6)] (Averages [100000] 100000), rest).
Proof.
  unfold main. cbn [freqtest ntests rolls andb is_some].
  change (process_rolls [] ["1d6"]) with (OK [mk_dice 6 1 0 0 0 0]).
  cbn [lift obind].
  change (sanitize_all [mk_dice 6 1 0 0 0 0]) with
    (@nil warning, OK tt).
  cbn [lift obind map n_rolls n_faces].
  change (100000 =? N_FREQTEST) with true. cbv iota.
  change 100000 with N_FREQTEST at 1.
  rewrite freq_loop_single_plain_die.
  rewrite Z2Nat.id by (unfold N_FREQTEST; lia).
  reflexivity.
Qed.

(** Any other count, and the default of one test, gives one row of
    totals per test, one total per die. *)
Lemma other_counts_print_rows
  (a : args) (g : tape) (p : printed) (g' : tape) :
  freqtest a = false ->
  match ntests a with Some n => n | None => 1 end <> N_FREQTEST ->
  main a g = Done (p, g') ->
  exists rows,
    body p = Rolls rows /\
    List.length rows
    = Z.to_nat (match ntests a with Some n => n | None => 1 end) /\
    Forall (fun row => List.length row = List.length (header p)) rows.
Proof.
  intros Hf Hn. unfold main. rewrite Hf. cbn [andb].
  apply Z.eqb_neq in Hn. rewrite Hn.
  destruct (process_rolls [] (rolls a)) as [dice_arr|e]; cbn [lift obind];
    [|discriminate].
  destruct (sanitize_all dice_arr) as [ws [[]|e]]; cbn [lift obind];
    [|discriminate].
  destruct (explicit_loop _ dice_arr g) as [[[rows arr] g1]| |] eqn:Hloop;
    cbn [obind]; try discriminate.
  intros [= <- <-]. cbn [body header].
  apply explicit_loop_fresh in Hloop as (_ & Hlen & Hfresh).
  exists rows. split; [reflexivity|]. split; [exact Hlen|].
  rewrite length_map. eapply fresh_trials_rows; eauto.
Qed.

(* ================================================================== *)
(** * Further properties of the code *)

(** ** More on strings *)


Lemma split_app_sep (sep : ascii) (a b : string) :
  contains sep a = false ->
  split sep (a ++ String sep b)%string = a :: split sep b.
Proof.
  induction a as [|x a IH]; simpl.
  - intros _. rewrite Ascii.eqb_refl. reflexivity.
  - destruct (Ascii.eqb x sep); [discriminate|].
    intros H. rewrite (IH H). reflexivity.
Qed.



Lemma isdigit_no_tag (x : ascii) (s : string) :
  is_digit x = false -> isdigit s = true -> contains x s = false.
Proof.
  intros Hx Hs. apply contains_all_digits; [exact Hx|].
  apply isdigit_all_digits. exact Hs.
Qed.

(** ** [dice.__init__] *)

Lemma dice_init_accepts (c f : string) :
  c = EmptyString \/ isdigit c = true -> isdigit f = true ->
  dice_init (c ++ String "d" f) = OK (mk_dice (int f) (count_of c) 0 0 0 0).
Proof.
  intros Hc Hf. unfold dice_init.
  assert (Hsplit : split "d" (c ++ String "d" f) = [c; f]).
  { rewrite split_app_sep.
    - rewrite split_absent; [reflexivity|].
      apply isdigit_no_tag; [reflexivity|exact Hf].
    - destruct Hc as [->|Hc]; [reflexivity|].
      apply isdigit_no_tag; [reflexivity|exact Hc]. }
  rewrite Hsplit.
  destruct Hc as [->|Hc].
  - cbn [List.length Nat.eqb negb orb forallb]. rewrite Hf.
    reflexivity.
  - destruct c as [|x c]; [discriminate|].
    cbn [List.length Nat.eqb negb orb forallb]. rewrite Hc, Hf.
    reflexivity.
Qed.





Lemma contains_app (x : ascii) (a b : string) :
  contains x (a ++ b)%string = contains x a || contains x b.
Proof.
  induction a as [|y a IH]; simpl; [reflexivity|].
  destruct (Ascii.eqb y x); [reflexivity|exact IH].
Qed.

(** ** [get], [set], [add_spec] *)

(** X2.  [set] and [get] are defined on the four characters "r", "t",
    "l", "h" and raise [InvalidSpecChar] on any other.  After [set] the
    same character reads back the value stored, -1 for a reroll count
    of 0; every other character reads as before, and [n_faces] and
    [n_rolls] are untouched. *)
Theorem set_then_get (d : dice) (s : ascii) (v : Z) :
  (In s SPEC_ARR ->
   exists d',
     set d s v = OK d' /\
     get d' s = OK (if Ascii.eqb s "r" && (v =? 0) then -1 else v) /\
     (forall other, other <> s -> get d' other = get d other) /\
     n_faces d' = n_faces d /\ n_rolls d' = n_rolls d) /\
  (~ In s SPEC_ARR ->
   set d s v = Err (InvalidSpecChar s) /\ get d s = Err (InvalidSpecChar s)).
Proof.
  split.
  - intros Hin. pick_tag Hin.
    + unfold set. cbn [Ascii.eqb Bool.eqb andb].
      destruct (v =? 0); eexists; (split; [reflexivity|]);
        (split; [reflexivity|]); (split; [|split; reflexivity]);
        intros other Hne; unfold get;
        (destruct (Ascii.eqb_spec other "r"); [congruence|reflexivity]).
    + eexists. split; [reflexivity|]. split; [reflexivity|].
      split; [|split; reflexivity].
      intros other Hne. unfold get.
      destruct (Ascii.eqb_spec other "r"); [reflexivity|].
      destruct (Ascii.eqb_spec other "t"); [congruence|reflexivity].
    + eexists. split; [reflexivity|]. split; [reflexivity|].
      split; [|split; reflexivity].
      intros other Hne. unfold get.
      destruct (Ascii.eqb_spec other "r"); [reflexivity|].
      destruct (Ascii.eqb_spec other "t"); [reflexivity|].
      destruct (Ascii.eqb_spec other "l"); [congruence|reflexivity].
    + eexists. split; [reflexivity|]. split; [reflexivity|].
      split; [|split; reflexivity].
      intros other Hne. unfold get.
      destruct (Ascii.eqb_spec other "r"); [reflexivity|].
      destruct (Ascii.eqb_spec other "t"); [reflexivity|].
      destruct (Ascii.eqb_spec other "l"); [reflexivity|].
      destruct (Ascii.eqb_spec other "h"); [congruence|reflexivity].
  - intros Hout. unfold set, get.
    destruct (Ascii.eqb_spec s "r"); [subst; simpl in Hout; tauto|].
    destruct (Ascii.eqb_spec s "t"); [subst; simpl in Hout; tauto|].
    destruct (Ascii.eqb_spec s "l"); [subst; simpl in Hout; tauto|].
    destruct (Ascii.eqb_spec s "h"); [subst; simpl in Hout; tauto|].
    split; reflexivity.
Qed.

Lemma set_then_get_witness :
  set (mk_dice 6 2 0 0 0 0) "l" 1 = OK (mk_dice 6 2 0 0 1 0) /\
  get (mk_dice 6 2 0 0 1 0) "l" = OK 1 /\
  set (mk_dice 6 2 0 0 0 0) "x" 1 = Err (InvalidSpecChar "x").
Proof.
  destruct (set_then_get (mk_dice 6 2 0 0 0 0) "l" 1) as [Hin _].
  destruct Hin as (d' & Hset & Hget & _); [simpl; tauto|].
  destruct (set_then_get (mk_dice 6 2 0 0 0 0) "x" 1) as [_ Hout].
  destruct Hout as [Hbad _].
  { simpl. intros [H|[H|[H|[H|[]]]]]; discriminate H. }
  injection Hset as <-. auto.
Defined.





(** ** The token loop *)

Lemma last_opt_split {A} (l : list A) (x : A) :
  last_opt l = Some x -> l = removelast l ++ [x].
Proof.
  induction l as [|a [|b l] IH]; try discriminate.
  - intros [= ->]. reflexivity.
  - intros H. change (last_opt (a :: b :: l)) with (last_opt (b :: l)) in H.
    change (removelast (a :: b :: l)) with (a :: removelast (b :: l)).
    cbn [app]. f_equal. apply IH. exact H.
Qed.



Lemma set_sizes (d d' : dice) (s : ascii) (v : Z) :
  set d s v = OK d' -> n_faces d' = n_faces d /\ n_rolls d' = n_rolls d.
Proof.
  unfold set.
  destruct (Ascii.eqb s "r" && (v =? 0)); [intros [= <-]; auto|].
  destruct (Ascii.eqb s "r"); [intros [= <-]; auto|].
  destruct (Ascii.eqb s "t"); [intros [= <-]; auto|].
  destruct (Ascii.eqb s "l"); [intros [= <-]; auto|].
  destruct (Ascii.eqb s "h"); [intros [= <-]; auto|].
  discriminate.
Qed.

Lemma add_spec_sizes (d d' : dice) (spec : string) :
  add_spec d spec = OK d' ->
  n_faces d' = n_faces d /\ n_rolls d' = n_rolls d.
Proof.
  intros H. apply add_spec_inv in H
    as (val & _ & digits & _ & _ & _ & _ & _ & Hset & _).
  eapply set_sizes; eauto.
Qed.

(** What an accepted token does to the list: a die token appends a new
    [dice]; any other token replaces the last one by the result of one
    [add_spec], applied to it or to it with [n_rolls] reset. *)
Lemma process_token_inv (arr arr' : list dice) (spec : string) :
  process_token arr spec = OK arr' ->
  (contains "d" spec = true /\
   exists d, dice_init spec = OK d /\ arr' = arr ++ [d]) \/
  (contains "d" spec = false /\
   exists cur cur',
     last_opt arr = Some cur /\ arr' = set_last arr cur' /\
     n_faces cur' = n_faces cur).
Proof.
  unfold process_token.
  destruct (negb (bsum _ =? 1)); [discriminate|].
  cbn [map INSTRCTN_ARR nth].
  destruct (contains "d" spec) eqn:Hd.
  { destruct (dice_init spec) as [d|e]; cbn [rbind]; [|discriminate].
    intros [= <-]. left. split; [reflexivity|]. eauto. }
  intros Htok. right. split; [reflexivity|]. revert Htok.
  destruct (last_opt arr) as [cur|] eqn:Hcur; [|discriminate].
  assert (Hstep : forall base spec',
             n_faces base = n_faces cur ->
             (d <- add_spec base spec' ;; OK (set_last arr d))%result = OK arr' ->
             exists c c', Some cur = Some c /\ arr' = set_last arr c' /\
                          n_faces c' = n_faces c).
  { intros base spec' Hb.
    destruct (add_spec base spec') as [d|e] eqn:Ha; cbn [rbind]; [|discriminate].
    intros [= <-]. apply add_spec_sizes in Ha as [Hf _].
    exists cur, d. repeat split. congruence. }
  destruct (any (slice 1 5 _));
    [intros Hgo; eapply Hstep; [|exact Hgo]; reflexivity|].
  destruct (any (slice 5 7 _) && negb (n_rolls cur =? 1)); [discriminate|].
  destruct (contains "A" spec);
    [intros Hgo; eapply Hstep; [|exact Hgo]; reflexivity|].
  destruct (contains "D" spec);
    [intros Hgo; eapply Hstep; [|exact Hgo]; reflexivity|].
  destruct (contains "E" spec);
    [intros Hgo; eapply Hstep; [|exact Hgo]; reflexivity|].
  intros [= <-]. exists cur, cur. repeat split.
  unfold set_last. apply last_opt_split. exact Hcur.
Qed.

(** X4.  A token that is accepted either appends one [dice] to the list,
    when it holds a "d", or replaces the last [dice] of the list by one
    with the same [n_faces]; the dice before the last are never touched. *)
Theorem token_touches_last_die_only (arr arr' : list dice) (spec : string) :
  process_token arr spec = OK arr' ->
  (contains "d" spec = true /\ exists d, arr' = arr ++ [d]) \/
  (contains "d" spec = false /\
   exists earlier cur cur',
     arr = earlier ++ [cur] /\ arr' = earlier ++ [cur'] /\
     n_faces cur' = n_faces cur).
Proof.
  intros H. apply process_token_inv in H
    as [(Hd & d & _ & ->)|(Hd & cur & cur' & Hlast & -> & Hf)].
  - left. eauto.
  - right. split; [exact Hd|].
    exists (removelast arr), cur, cur'.
    split; [apply last_opt_split; exact Hlast|]. split; [reflexivity|exact Hf].
Qed.

Lemma token_touches_last_die_only_witness :
  process_token [mk_dice 20 1 0 0 0 0; mk_dice 6 4 0 0 0 0] "l1"
  = OK [mk_dice 20 1 0 0 0 0; mk_dice 6 4 0 0 1 0] /\
  exists earlier cur cur',
    [mk_dice 20 1 0 0 0 0; mk_dice 6 4 0 0 0 0] = earlier ++ [cur] /\
    [mk_dice 20 1 0 0 0 0; mk_dice 6 4 0 0 1 0] = earlier ++ [cur'] /\
    n_faces cur' = n_faces cur.
Proof.
  split; [reflexivity|].
  destruct (token_touches_last_die_only
              [mk_dice 20 1 0 0 0 0; mk_dice 6 4 0 0 0 0]
              [mk_dice 20 1 0 0 0 0; mk_dice 6 4 0 0 1 0] "l1" eq_refl)
    as [[Hd _]|[_ H]]; [discriminate Hd|exact H].
Defined.

Lemma process_rolls_count (rolls : list string) :
  forall arr arr',
    process_rolls arr rolls = OK arr' ->
    List.length arr'
    = (List.length arr + List.length (filter (contains "d") rolls))%nat.
Proof.
  induction rolls as [|spec rest IH]; intros arr arr'; cbn [process_rolls].
  - intros [= <-]. cbn [filter List.length]. lia.
  - destruct (process_token arr spec) as [arr1|e] eqn:Hstep; cbn [rbind];
      [|discriminate].
    intros H. apply IH in H. rewrite H. cbn [filter].
    apply process_token_inv in Hstep
      as [(Hd & d & _ & ->)|(Hd & cur & cur' & Hlast & -> & _)]; rewrite Hd.
    + rewrite length_app. cbn [List.length]. lia.
    + rewrite (last_opt_split _ _ Hlast) at 2.
      unfold set_last. rewrite !length_app. cbn [List.length]. lia.
Qed.

(** X5.  After a successful parse there are as many [dice] as tokens
    holding a "d", and the first token, if there is any, is one of
    them. *)
Theorem parse_counts_die_tokens (rolls : list string) (dice_arr : list dice) :
  parse rolls = OK dice_arr ->
  List.length dice_arr = List.length (filter (contains "d") rolls) /\
  (rolls <> [] -> exists spec rest,
      rolls = spec :: rest /\ contains "d" spec = true).
Proof.
  intros H. split.
  - apply process_rolls_count in H. exact H.
  - intros Hne. destruct rolls as [|spec rest]; [congruence|].
    exists spec, rest. split; [reflexivity|].
    unfold parse in H. cbn [process_rolls] in H.
    destruct (process_token [] spec) as [arr1|e] eqn:Hstep; [|discriminate].
    apply process_token_inv in Hstep
      as [(Hd & _)|(_ & cur & _ & Hlast & _)]; [exact Hd|discriminate].
Qed.

Lemma parse_counts_die_tokens_witness :
  parse ["d20"; "r0"; "t3"; "4d6"; "l1"]
  = OK [mk_dice 20 1 (-1) 3 0 0; mk_dice 6 4 0 0 1 0] /\
  List.length [mk_dice 20 1 (-1) 3 0 0; mk_dice 6 4 0 0 1 0]
  = List.length (filter (contains "d") ["d20"; "r0"; "t3"; "4d6"; "l1"]).
Proof.
  split; [reflexivity|].
  apply (parse_counts_die_tokens ["d20"; "r0"; "t3"; "4d6"; "l1"]
           [mk_dice 20 1 (-1) 3 0 0; mk_dice 6 4 0 0 1 0]).
  reflexivity.
Defined.

(** X6.  A token that holds a "d" together with any other instruction
    character is refused with [MalformedRoll], whatever the list holds:
    a die and its modifiers cannot share a token. *)
Theorem die_with_modifier_in_one_token_is_malformed
  (arr : list dice) (spec : string) (x : ascii) :
  contains "d" spec = true ->
  In x ["r"; "t"; "l"; "h"; "A"; "D"; "E"]%char ->
  contains x spec = true ->
  process_token arr spec = Err MalformedRoll.
Proof.
  intros Hd Hin Hx. unfold process_token. cbn [map INSTRCTN_ARR].
  rewrite Hd. pick_tag Hin; rewrite Hx;
    repeat match goal with
           | |- context [contains ?c spec] => destruct (contains c spec)
           end; reflexivity.
Qed.

Lemma die_with_modifier_in_one_token_is_malformed_witness :
  process_token [] "1d20r1t5" = Err MalformedRoll /\
  process_token [mk_dice 6 1 0 0 0 0] "2d6l1" = Err MalformedRoll.
Proof.
  split.
  - apply (die_with_modifier_in_one_token_is_malformed [] "1d20r1t5" "r"%char);
      [reflexivity|simpl; tauto|reflexivity].
  - apply (die_with_modifier_in_one_token_is_malformed
             [mk_dice 6 1 0 0 0 0] "2d6l1" "l"%char);
      [reflexivity|simpl; tauto|reflexivity].
Defined.

(** X7.  When the first token holds no "d" the parse fails, whatever
    follows: with [NoDiceYet] when the token carries exactly one
    instruction character, with [MalformedRoll] otherwise. *)
Theorem modifier_before_any_die_fails (spec : string) (rest : list string) :
  contains "d" spec = false ->
  (bsum (map (fun x => contains x spec) INSTRCTN_ARR) = 1 ->
   parse (spec :: rest) = Err NoDiceYet) /\
  (bsum (map (fun x => contains x spec) INSTRCTN_ARR) <> 1 ->
   parse (spec :: rest) = Err MalformedRoll).
Proof.
  intros Hd. unfold parse. cbn [process_rolls]. unfold process_token.
  split; intros Hsum.
  - rewrite Hsum. cbn [Z.eqb Pos.eqb negb].
    cbn [map INSTRCTN_ARR nth]. rewrite Hd. reflexivity.
  - apply Z.eqb_neq in Hsum. rewrite Hsum. reflexivity.
Qed.

Lemma modifier_before_any_die_fails_witness :
  parse ["r1"; "1d6"] = Err NoDiceYet /\ parse ["A"] = Err NoDiceYet /\
  parse ["6"; "1d6"] = Err MalformedRoll.
Proof.
  destruct (modifier_before_any_die_fails "r1" ["1d6"] eq_refl) as [H1 _].
  destruct (modifier_before_any_die_fails "A" [] eq_refl) as [H2 _].
  destruct (modifier_before_any_die_fails "6" ["1d6"] eq_refl) as [_ H3].
  split; [apply H1; reflexivity|]. split; [apply H2; reflexivity|].
  apply H3. discriminate.
Defined.

(** The flags of a well-formed die token. *)
Lemma die_token_flags (c f : string) (x : ascii) :
  c = EmptyString \/ isdigit c = true -> isdigit f = true ->
  is_digit x = false ->
  contains x (c ++ String "d" f) = Ascii.eqb "d" x.
Proof.
  intros Hc Hf Hx. rewrite contains_app. cbn [contains].
  rewrite (isdigit_no_tag x f Hx Hf).
  destruct Hc as [->|Hc]; [|rewrite (isdigit_no_tag x c Hx Hc)];
    cbn [contains orb]; destruct (Ascii.eqb "d" x); reflexivity.
Qed.

Lemma die_token_appends (arr : list dice) (c f : string) :
  c = EmptyString \/ isdigit c = true -> isdigit f = true ->
  process_token arr (c ++ String "d" f)
  = OK (arr ++ [mk_dice (int f) (count_of c) 0 0 0 0]).
Proof.
  intros Hc Hf. unfold process_token. cbn [map INSTRCTN_ARR].
  rewrite !(die_token_flags c f) by (assumption || reflexivity).
  cbn -[dice_init]. rewrite dice_init_accepts by assumption. reflexivity.
Qed.






(** X9.  For every face count, "A" after "1dF" gives two dice with the
    lowest dropped, "D" two dice with the highest dropped, "E" three dice
    with the two lowest dropped: the same configurations as "2dF" "l1",
    "2dF" "h1" and "3dF" "l2". *)
Theorem shorthands_expand (f : string) :
  isdigit f = true ->
  parse [String "1" (String "d" f); "A"] = OK [mk_dice (int f) 2 0 0 1 0] /\
  parse [String "1" (String "d" f); "D"] = OK [mk_dice (int f) 2 0 0 0 1] /\
  parse [String "1" (String "d" f); "E"] = OK [mk_dice (int f) 3 0 0 2 0] /\
  parse [String "1" (String "d" f); "A"]
  = parse [String "2" (String "d" f); "l1"] /\
  parse [String "1" (String "d" f); "D"]
  = parse [String "2" (String "d" f); "h1"] /\
  parse [String "1" (String "d" f); "E"]
  = parse [String "3" (String "d" f); "l2"].
Proof.
  intros Hf. unfold parse. cbn [process_rolls].
  change (String "1" (String "d" f)) with ("1" ++ String "d" f)%string.
  change (String "2" (String "d" f)) with ("2" ++ String "d" f)%string.
  change (String "3" (String "d" f)) with ("3" ++ String "d" f)%string.
  rewrite (die_token_appends [] "1" f) by (auto; right; reflexivity).
  rewrite (die_token_appends [] "2" f) by (auto; right; reflexivity).
  rewrite (die_token_appends [] "3" f) by (auto; right; reflexivity).
  repeat split; reflexivity.
Qed.

Lemma shorthands_expand_witness :
  parse ["1d20"; "A"] = OK [mk_dice 20 2 0 0 1 0] /\
  parse ["1d20"; "E"] = parse ["3d20"; "l2"].
Proof.
  destruct (shorthands_expand "20" eq_refl) as (HA & _ & _ & _ & _ & HE).
  split; [exact HA|exact HE].
Defined.

(** ** More on rolling *)

(** X10.  When [roll] returns, the tape it used is a run of draws at or
    below the threshold followed by the draw it returns; the budget has
    lost one unit per draw of that run; and the value returned is above
    the threshold unless the budget is used up. *)
Theorem roll_returns_last_draw (g : tape) :
  forall d v d' g',
    roll d g = Done (v, d', g') ->
    exists lows r,
      g = lows ++ r :: g' /\
      Forall (fun x => x mod n_faces d + 1 <= reroll_threshold d) lows /\
      v = r mod n_faces d + 1 /\
      n_rerolls d' = n_rerolls d - Z.of_nat (List.length lows) /\
      (reroll_threshold d < v \/ n_rerolls d' = 0).
Proof.
  induction g as [|r g IH]; intros d v d' g'; cbn [roll];
    destruct (n_faces d <=? 0); try discriminate.
  assert (Hstop : forall last,
             last = true ->
             (reroll_threshold d < r mod n_faces d + 1 \/ n_rerolls d = 0) ->
             Done (r mod n_faces d + 1, d, g) = Done (v, d', g') ->
             exists lows r0,
               r :: g = lows ++ r0 :: g' /\
               Forall (fun x => x mod n_faces d + 1 <= reroll_threshold d) lows /\
               v = r0 mod n_faces d + 1 /\
               n_rerolls d' = n_rerolls d - Z.of_nat (List.length lows) /\
               (reroll_threshold d < v \/ n_rerolls d' = 0)).
  { intros _ _ Hwhy [= <- <- <-]. exists [], r. cbn [app List.length Z.of_nat].
    repeat split; auto. lia. }
  destruct (r mod n_faces d + 1 <=? reroll_threshold d) eqn:Hlow; cbn [andb].
  - destruct (n_rerolls d =? 0) eqn:Hz; cbn [negb].
    + apply (Hstop true eq_refl). right. apply Z.eqb_eq. exact Hz.
    + intros H. apply IH in H as (lows & r0 & -> & Hall & -> & Hb & Hwhy).
      cbn [n_faces reroll_threshold n_rerolls with_n_rerolls] in *.
      exists (r :: lows), r0. cbn [app List.length].
      rewrite Nat2Z.inj_succ. repeat split; auto; [|lia].
      constructor; [apply Z.leb_le; exact Hlow|exact Hall].
  - apply (Hstop true eq_refl). left. apply Z.leb_gt. exact Hlow.
Qed.

Lemma roll_returns_last_draw_witness :
  roll (mk_dice 6 1 2 1 0 0) [0; 6; 12; 3] = Done (1, mk_dice 6 1 0 1 0 0, [3]) /\
  exists lows r,
    [0; 6; 12; 3] = lows ++ r :: [3] /\
    Forall (fun x => x mod 6 + 1 <= 1) lows /\
    1 = r mod 6 + 1 /\
    0 = 2 - Z.of_nat (List.length lows) /\
    (1 < 1 \/ 0 = 0).
Proof.
  split; [reflexivity|].
  apply (roll_returns_last_draw [0; 6; 12; 3] (mk_dice 6 1 2 1 0 0)
           1 (mk_dice 6 1 0 1 0 0) [3]).
  reflexivity.
Defined.




Lemma fold_add_acc (l : list Z) :
  forall acc, fold_left Z.add l acc = acc + fold_left Z.add l 0.
Proof.
  induction l as [|x l IH]; intros acc; cbn [fold_left]; [lia|].
  rewrite IH. rewrite (IH (0 + x)). lia.
Qed.

Lemma zsum_cons (x : Z) (l : list Z) : zsum (x :: l) = x + zsum l.
Proof. unfold zsum. cbn [fold_left]. rewrite fold_add_acc. lia. Qed.

Lemma zsum_bounds (lo hi : Z) (l : list Z) :
  Forall (fun v => lo <= v <= hi) l ->
  Z.of_nat (List.length l) * lo <= zsum l <= Z.of_nat (List.length l) * hi.
Proof.
  induction 1 as [|x l Hx _ IH]; [unfold zsum; simpl; lia|].
  rewrite zsum_cons. cbn [List.length]. rewrite Nat2Z.inj_succ. lia.
Qed.

Lemma zsum_perm (l l' : list Z) : Permutation l l' -> zsum l = zsum l'.
Proof.
  induction 1; rewrite ?zsum_cons; lia.
Qed.

(** The total of a group is the sum of [kept_dice] values, each a face. *)
Lemma roll_n_kept
  (d : dice) (g : tape) (total : Z) (d' : dice) (g' : tape) :
  validated d ->
  roll_n d g = Done (total, d', g') ->
  exists kept,
    total = zsum kept /\
    Forall (fun v => 1 <= v <= n_faces d) kept /\
    Z.of_nat (List.length kept) = kept_dice d.
Proof.
  intros Hv Hn. unfold kept_dice.
  apply roll_n_inv in Hn as (rolls & Ht & Hsum).
  destruct (roll_n_after_rolls d g rolls d' g' Hv Ht)
    as (Hlen & lows & rest & highs & kept & Hlow & Hhigh & Hll & Hlh
        & Hpl & Hph & _ & _ & Hn).
  apply roll_times_facts in Ht as (_ & Hall & Hshape & _).
  exists kept. split; [|split].
  - unfold drop_and_sum in Hsum. rewrite Hshape in Hsum.
    cbn [n_lowest_dropped n_highest_dropped with_n_rerolls] in Hsum.
    rewrite Hlow in Hsum. cbn [rbind] in Hsum. rewrite Hhigh in Hsum.
    cbn [rbind] in Hsum. congruence.
  - rewrite Forall_forall in *. intros v Hin. apply Hall.
    apply (Permutation_in _ (Permutation_sym Hpl)). apply in_or_app. right.
    apply (Permutation_in _ (Permutation_sym Hph)). apply in_or_app. right.
    exact Hin.
  - apply Permutation_length in Hpl, Hph. rewrite length_app in Hpl, Hph. lia.
Qed.

(** X12.  On a validated [dice] the total of [roll_n] lies between the
    number of dice kept and that number times [n_faces]. *)
Theorem roll_n_total_bounds
  (d : dice) (g : tape) (total : Z) (d' : dice) (g' : tape) :
  validated d ->
  roll_n d g = Done (total, d', g') ->
  kept_dice d <= total <= kept_dice d * n_faces d.
Proof.
  intros Hv Hn.
  destruct (roll_n_kept d g total d' g' Hv Hn) as (kept & -> & Hall & Hlen).
  apply zsum_bounds in Hall. rewrite Hlen in Hall. lia.
Qed.

Lemma roll_n_total_bounds_witness :
  validated (mk_dice 6 4 0 0 1 1) /\
  roll_n (mk_dice 6 4 0 0 1 1) [0; 1; 2; 3]
  = Done (5, mk_dice 6 4 0 0 1 1, []) /\
  kept_dice (mk_dice 6 4 0 0 1 1) <= 5
  <= kept_dice (mk_dice 6 4 0 0 1 1) * n_faces (mk_dice 6 4 0 0 1 1).
Proof.
  assert (Hv : validated (mk_dice 6 4 0 0 1 1)).
  { split; [constructor; simpl; lia|reflexivity]. }
  split; [exact Hv|]. split; [reflexivity|].
  apply (roll_n_total_bounds (mk_dice 6 4 0 0 1 1) [0; 1; 2; 3] 5
           (mk_dice 6 4 0 0 1 1) [] Hv eq_refl).
Defined.

(** ** Dropping: what is kept *)

Lemma drop_lowest_pair (a b : Z) : drop_lowest 1 [a; b] = OK [Z.max a b].
Proof. drop_cases. Qed.

Lemma drop_highest_pair (a b : Z) : drop_highest 1 [a; b] = OK [Z.min a b].
Proof. drop_cases. Qed.

Lemma drop_lowest_triple (a b c : Z) :
  drop_lowest 2 [a; b; c] = OK [Z.max a (Z.max b c)].
Proof. drop_cases. Qed.

Lemma roll_n_fixed_size
  (d : dice) (g : tape) (total : Z) (d' : dice) (g' : tape) :
  roll_n d g = Done (total, d', g') ->
  exists rolls,
    roll_times (Z.to_nat (n_rolls d)) d g = Done (rolls, d', g') /\
    List.length rolls = Z.to_nat (n_rolls d) /\
    drop_and_sum d rolls = OK total.
Proof.
  intros H. apply roll_n_inv in H as (rolls & Ht & Hsum).
  exists rolls. split; [exact Ht|].
  apply roll_times_facts in Ht as (Hlen & _ & Hshape & _).
  split; [exact Hlen|]. rewrite Hshape in Hsum. exact Hsum.
Qed.

(** X13.  With two dice and the lowest dropped [roll_n] returns the
    higher of the two rolls; with the highest dropped, the lower; with
    three dice and the two lowest dropped, the highest of the three. *)
Theorem advantage_keeps_the_highest
  (d : dice) (g : tape) (total : Z) (d' : dice) (g' : tape) :
  roll_n d g = Done (total, d', g') ->
  (n_rolls d = 2 -> n_lowest_dropped d = 1 -> n_highest_dropped d = 0 ->
   exists a b,
     roll_times 2 d g = Done ([a; b], d', g') /\ total = Z.max a b) /\
  (n_rolls d = 2 -> n_lowest_dropped d = 0 -> n_highest_dropped d = 1 ->
   exists a b,
     roll_times 2 d g = Done ([a; b], d', g') /\ total = Z.min a b) /\
  (n_rolls d = 3 -> n_lowest_dropped d = 2 -> n_highest_dropped d = 0 ->
   exists a b c,
     roll_times 3 d g = Done ([a; b; c], d', g') /\
     total = Z.max a (Z.max b c)).
Proof.
  intros H. apply roll_n_fixed_size in H as (rolls & Ht & Hlen & Hsum).
  unfold drop_and_sum in Hsum.
  split; [|split]; intros Hn Hl Hh; rewrite Hn in *; rewrite Hl, Hh in Hsum.
  - destruct rolls as [|a [|b [|c rolls]]]; try discriminate Hlen.
    exists a, b. split; [exact Ht|].
    change (Z.to_nat 1) with 1%nat in Hsum. rewrite drop_lowest_pair in Hsum.
    cbn in Hsum. injection Hsum as <-. reflexivity.
  - destruct rolls as [|a [|b [|c rolls]]]; try discriminate Hlen.
    exists a, b. split; [exact Ht|].
    change (Z.to_nat 1) with 1%nat in Hsum.
    cbn [Z.to_nat drop_lowest rbind] in Hsum.
    rewrite drop_highest_pair in Hsum.
    cbn in Hsum. injection Hsum as <-. reflexivity.
  - destruct rolls as [|a [|b [|c [|c' rolls]]]]; try discriminate Hlen.
    exists a, b, c. split; [exact Ht|].
    change (Z.to_nat 2) with 2%nat in Hsum. rewrite drop_lowest_triple in Hsum.
    cbn in Hsum. injection Hsum as <-. reflexivity.
Qed.

Lemma advantage_keeps_the_highest_witness :
  roll_n (mk_dice 20 2 0 0 1 0) [6; 16] = Done (17, mk_dice 20 2 0 0 1 0, []) /\
  exists a b,
    roll_times 2 (mk_dice 20 2 0 0 1 0) [6; 16]
    = Done ([a; b], mk_dice 20 2 0 0 1 0, []) /\ 17 = Z.max a b.
Proof.
  split; [reflexivity|].
  destruct (advantage_keeps_the_highest
              (mk_dice 20 2 0 0 1 0) [6; 16] 17 (mk_dice 20 2 0 0 1 0) []
              eq_refl) as (HA & _ & _).
  apply HA; reflexivity.
Defined.

Lemma list_min_perm (l l' : list Z) :
  Permutation l l' -> list_min l = list_min l'.
Proof.
  intros Hp. destruct l as [|x l].
  - apply Permutation_nil in Hp. subst. reflexivity.
  - destruct l' as [|x' l'];
      [apply Permutation_sym, Permutation_nil in Hp; discriminate|].
    destruct (list_min_spec (x :: l)) as (m & Hm & Hin & Hle); [discriminate|].
    destruct (list_min_spec (x' :: l')) as (m' & Hm' & Hin' & Hle');
      [discriminate|].
    rewrite Hm, Hm'. f_equal. rewrite Forall_forall in Hle, Hle'.
    pose proof (Hle m' (Permutation_in _ (Permutation_sym Hp) Hin')).
    pose proof (Hle' m (Permutation_in _ Hp Hin)). lia.
Qed.

Lemma list_max_perm (l l' : list Z) :
  Permutation l l' -> list_max l = list_max l'.
Proof.
  intros Hp. destruct l as [|x l].
  - apply Permutation_nil in Hp. subst. reflexivity.
  - destruct l' as [|x' l'];
      [apply Permutation_sym, Permutation_nil in Hp; discriminate|].
    destruct (list_max_spec (x :: l)) as (m & Hm & Hin & Hle); [discriminate|].
    destruct (list_max_spec (x' :: l')) as (m' & Hm' & Hin' & Hle');
      [discriminate|].
    rewrite Hm, Hm'. f_equal. rewrite Forall_forall in Hle, Hle'.
    pose proof (Hle m' (Permutation_in _ (Permutation_sym Hp) Hin')).
    pose proof (Hle' m (Permutation_in _ Hp Hin)). lia.
Qed.

Lemma drop_lowest_perm (n : nat) :
  forall l l',
    Permutation l l' -> same_up_to_order (drop_lowest n l) (drop_lowest n l').
Proof.
  induction n as [|n IH]; intros l l' Hp; cbn [drop_lowest]; [exact Hp|].
  rewrite <- (list_min_perm l l' Hp).
  destruct l as [|x l].
  { apply Permutation_nil in Hp. subst. reflexivity. }
  destruct (list_min_spec (x :: l)) as (m & Hm & Hin & _); [discriminate|].
  rewrite Hm. cbn [rbind].
  destruct (remove_first_spec m (x :: l) Hin) as (r & Hr & Hpr).
  destruct (remove_first_spec m l' (Permutation_in _ Hp Hin))
    as (r' & Hr' & Hpr').
  rewrite Hr, Hr'. cbn [rbind]. apply IH.
  apply (Permutation_cons_inv (a := m)).
  rewrite <- Hpr, <- Hpr'. exact Hp.
Qed.

Lemma drop_highest_perm (n : nat) :
  forall l l',
    Permutation l l' ->
    same_up_to_order (drop_highest n l) (drop_highest n l').
Proof.
  induction n as [|n IH]; intros l l' Hp; cbn [drop_highest]; [exact Hp|].
  rewrite <- (list_max_perm l l' Hp).
  destruct l as [|x l].
  { apply Permutation_nil in Hp. subst. reflexivity. }
  destruct (list_max_spec (x :: l)) as (m & Hm & Hin & _); [discriminate|].
  rewrite Hm. cbn [rbind].
  destruct (remove_first_spec m (x :: l) Hin) as (r & Hr & Hpr).
  destruct (remove_first_spec m l' (Permutation_in _ Hp Hin))
    as (r' & Hr' & Hpr').
  rewrite Hr, Hr'. cbn [rbind]. apply IH.
  apply (Permutation_cons_inv (a := m)).
  rewrite <- Hpr, <- Hpr'. exact Hp.
Qed.

(** X14.  What [roll_n] makes of the rolls does not depend on their
    order: on two lists with the same values [drop_and_sum] gives the
    same total, or the same exception. *)
Theorem drop_and_sum_ignores_order (d : dice) (rolls rolls' : list Z) :
  Permutation rolls rolls' ->
  drop_and_sum d rolls = drop_and_sum d rolls'.
Proof.
  intros Hp. unfold drop_and_sum.
  pose proof (drop_lowest_perm (Z.to_nat (n_lowest_dropped d)) _ _ Hp) as Hl.
  destruct (drop_lowest _ rolls) as [r1|e1], (drop_lowest _ rolls') as [r1'|e1'];
    cbn [same_up_to_order] in Hl; try contradiction; cbn [rbind];
    [|congruence].
  pose proof (drop_highest_perm (Z.to_nat (n_highest_dropped d)) _ _ Hl) as Hh.
  destruct (drop_highest _ r1) as [r2|e2], (drop_highest _ r1') as [r2'|e2'];
    cbn [same_up_to_order] in Hh; try contradiction; cbn [rbind];
    [|congruence].
  f_equal. apply zsum_perm. exact Hh.
Qed.

Lemma drop_and_sum_ignores_order_witness :
  Permutation [4; 1; 3; 2] [1; 2; 3; 4] /\
  drop_and_sum (mk_dice 6 4 0 0 1 1) [4; 1; 3; 2] = OK 5.
Proof.
  assert (Hp : Permutation [4; 1; 3; 2] [1; 2; 3; 4]).
  { apply (perm_trans (l' := [1; 4; 3; 2])); [apply perm_swap|].
    apply perm_skip.
    apply (perm_trans (l' := [3; 4; 2])); [apply perm_swap|].
    apply (perm_trans (l' := [3; 2; 4])); [apply perm_skip, perm_swap|].
    apply (perm_trans (l' := [2; 3; 4])); [apply perm_swap|].
    apply Permutation_refl. }
  split; [exact Hp|].
  rewrite (drop_and_sum_ignores_order (mk_dice 6 4 0 0 1 1) _ _ Hp).
  reflexivity.
Defined.

(** X15.  A [dice] without reroll budget comes out of [roll_n] as it
    went in, and [roll_n] takes exactly [n_rolls] draws. *)
Theorem plain_dice_are_left_unchanged
  (d : dice) (g : tape) (total : Z) (d' : dice) (g' : tape) :
  n_rerolls d = 0 ->
  roll_n d g = Done (total, d', g') ->
  d' = d /\ draws g g' = Z.of_nat (Z.to_nat (n_rolls d)).
Proof.
  intros H0 H. apply roll_n_inv in H as (rolls & Ht & _).
  apply roll_times_facts in Ht as (_ & _ & Hshape & Hle & Hpos & Hd).
  assert (Hz : n_rerolls d' = 0) by lia.
  split; [|lia].
  rewrite Hshape, Hz, <- H0. apply with_n_rerolls_same.
Qed.

Lemma plain_dice_are_left_unchanged_witness :
  roll_n (mk_dice 6 3 0 0 0 0) [2; 3; 4; 5] = Done (12, mk_dice 6 3 0 0 0 0, [5]) /\
  draws [2; 3; 4; 5] [5] = Z.of_nat (Z.to_nat 3).
Proof.
  split; [reflexivity|].
  apply (plain_dice_are_left_unchanged
           (mk_dice 6 3 0 0 0 0) [2; 3; 4; 5] 12 (mk_dice 6 3 0 0 0 0) [5]);
    reflexivity.
Defined.

(** ** Errors of the parser and of [sanitize] *)





(** ** The loops raise nothing on validated dice *)









(** X17.  With a count of 0 or less, [main] prints the header and no
    row, and takes no draw. *)
Theorem non_positive_count_rolls_nothing
  (a : args) (n : Z) (g : tape) (p : printed) (g' : tape) :
  ntests a = Some n -> n <= 0 ->
  main a g = Done (p, g') ->
  body p = Rolls [] /\ g' = g.
Proof.
  intros Hn Hle. unfold main. rewrite Hn. cbn [is_some].
  destruct (freqtest a); cbn [andb]; [discriminate|].
  destruct (process_rolls [] (rolls a)) as [ds|e0]; cbn [lift obind];
    [|discriminate].
  destruct (sanitize_all ds) as [ws [[]|e1]]; cbn [lift obind];
    [|discriminate].
  assert (Hne : (n =? N_FREQTEST) = false).
  { apply Z.eqb_neq. unfold N_FREQTEST. lia. }
  rewrite Hne.
  replace (Z.to_nat n) with 0%nat by lia.
  cbn [explicit_loop obind]. intros [= <- <-]. auto.
Qed.

Lemma non_positive_count_rolls_nothing_witness :
  main (mk_args ["3d6"] (Some (-2)) false) [4; 5]
  = Done (mk_printed [] [(3, 6)] (Rolls []), [4; 5]) /\
  body (mk_printed [] [(3, 6)] (Rolls [])) = Rolls [].
Proof.
  split; [reflexivity|].
  apply (non_positive_count_rolls_nothing
           (mk_args ["3d6"] (Some (-2)) false) (-2) [4; 5]
           (mk_printed [] [(3, 6)] (Rolls [])) [4; 5]);
    [reflexivity|lia|reflexivity].
Defined.

(** ** The two modes on the same draws *)

Lemma fresh_to_explicit (ds : list dice) (g g' : tape) (rows : list (list Z)) :
  fresh_trials ds g rows g' ->
  explicit_loop (List.length rows) ds g = Done (rows, ds, g').
Proof.
  induction 1 as [g|g g1 g2 row used rows Hroll _ IH];
    cbn [List.length explicit_loop]; [reflexivity|].
  unfold explicit_trial, deepcopy. rewrite Hroll. cbn [obind].
  rewrite IH. reflexivity.
Qed.

Lemma roll_each_to_freq_each (ds : list dice) :
  forall pre mid g row used g',
    List.length mid = List.length ds ->
    roll_each ds g = Done (row, used, g') ->
    freq_each (List.length pre) ds (pre ++ mid) g
    = Done (pre ++ add_row mid row, g').
Proof.
  induction ds as [|d ds IH]; intros pre mid g row used g' Hlen;
    cbn [roll_each freq_each].
  - intros [= <- <- <-]. destruct mid; [reflexivity|discriminate].
  - destruct mid as [|s mid]; [discriminate|]. injection Hlen as Hlen.
    unfold deepcopy.
    destruct (roll_n d g) as [[[t d1] g1]| |]; cbn [obind]; try discriminate.
    destruct (roll_each ds g1) as [[[ts ds1] g2]| |] eqn:Hrest; cbn [obind];
      try discriminate.
    intros [= <- <- <-].
    rewrite add_at_app. cbn [lift obind].
    replace (pre ++ (s + t) :: mid) with ((pre ++ [s + t]) ++ mid)
      by (rewrite <- app_assoc; reflexivity).
    replace (S (List.length pre)) with (List.length (pre ++ [s + t]))
      by (rewrite length_app; simpl; lia).
    rewrite (IH _ _ _ _ _ _ Hlen Hrest).
    rewrite <- app_assoc. reflexivity.
Qed.

Lemma fresh_to_freq (ds : list dice) (g g' : tape) (rows : list (list Z)) :
  fresh_trials ds g rows g' ->
  forall sum_arr,
    List.length sum_arr = List.length ds ->
    freq_loop (List.length rows) ds sum_arr g
    = Done (fold_left add_row rows sum_arr, ds, g').
Proof.
  induction 1 as [g|g g1 g2 row used rows Hroll _ IH]; intros sum_arr Hlen;
    cbn [List.length freq_loop fold_left]; [reflexivity|].
  pose proof (roll_each_to_freq_each ds [] sum_arr g row used g1 Hlen Hroll)
    as Hpass.
  cbn [List.length app] in Hpass. rewrite Hpass.
  cbn [obind]. apply IH. rewrite add_row_length. exact Hlen.
Qed.

(** X18.  On the same draws the sums of the frequentist loop are the
    column sums of the rows of the other loop, and either loop completes
    when the other does, leaving the same tape. *)
Theorem frequentist_sums_are_column_sums
  (n : nat) (ds : list dice) (g : tape) (sums : list Z) (g' : tape) :
  freq_loop n ds (map (fun _ => 0) ds) g = Done (sums, ds, g') <->
  exists rows,
    explicit_loop n ds g = Done (rows, ds, g') /\
    sums = fold_left add_row rows (map (fun _ => 0) ds).
Proof.
  split.
  - intros H. apply freq_loop_fresh in H
      as (_ & rows & Hlen & Hfresh & ->); [|apply length_map].
    exists rows. split; [|reflexivity].
    rewrite <- Hlen. apply fresh_to_explicit. exact Hfresh.
  - intros (rows & H & ->).
    apply explicit_loop_fresh in H as (_ & Hlen & Hfresh).
    rewrite <- Hlen. apply fresh_to_freq; [exact Hfresh|apply length_map].
Qed.

Lemma frequentist_sums_are_column_sums_witness :
  freq_loop 2 [mk_dice 6 1 0 0 0 0; mk_dice 4 2 0 0 0 0]
    (map (fun _ => 0) [mk_dice 6 1 0 0 0 0; mk_dice 4 2 0 0 0 0])
    [0; 1; 2; 3; 4; 5; 6]
  = Done ([5; 8], [mk_dice 6 1 0 0 0 0; mk_dice 4 2 0 0 0 0], [6]) /\
  exists rows,
    explicit_loop 2 [mk_dice 6 1 0 0 0 0; mk_dice 4 2 0 0 0 0]
      [0; 1; 2; 3; 4; 5; 6]
    = Done (rows, [mk_dice 6 1 0 0 0 0; mk_dice 4 2 0 0 0 0], [6]) /\
    [5; 8] = fold_left add_row rows
                (map (fun _ => 0) [mk_dice 6 1 0 0 0 0; mk_dice 4 2 0 0 0 0]).
Proof.
  split; [reflexivity|].
  apply (proj1 (frequentist_sums_are_column_sums
                  2 [mk_dice 6 1 0 0 0 0; mk_dice 4 2 0 0 0 0]
                  [0; 1; 2; 3; 4; 5; 6] [5; 8] [6])).
  reflexivity.
Defined.

Lemma roll_each_range (ds : list dice) :
  forall g row used g',
    Forall validated ds ->
    roll_each ds g = Done (row, used, g') ->
    Forall2 (fun d v => kept_dice d <= v <= kept_dice d * n_faces d) ds row.
Proof.
  induction ds as [|d ds IH]; intros g row used g' Hall; cbn [roll_each].
  - intros [= <- _ _]. constructor.
  - inversion Hall as [|? ? Hd Hds]; subst.
    destruct (roll_n d g) as [[[t d1] g1]| |] eqn:Hn; cbn [obind];
      try discriminate.
    destruct (roll_each ds g1) as [[[ts ds1] g2]| |] eqn:Hrest; cbn [obind];
      try discriminate.
    intros [= <- _ _]. constructor; [|eapply IH; eauto].
    destruct (roll_n_kept d g t d1 g1 Hd Hn) as (kept & -> & Hk & Hlen).
    apply zsum_bounds in Hk. rewrite Hlen in Hk. lia.
Qed.

Lemma add_row_range (ds : list dice) (k : Z) :
  forall sums row,
    Forall2 (fun d s => k * kept_dice d <= s
                        <= k * (kept_dice d * n_faces d)) ds sums ->
    Forall2 (fun d v => kept_dice d <= v <= kept_dice d * n_faces d) ds row ->
    Forall2 (fun d s => (k + 1) * kept_dice d <= s
                        <= (k + 1) * (kept_dice d * n_faces d))
            ds (add_row sums row).
Proof.
  induction ds as [|d ds IH]; intros sums row Hs Hr;
    inversion Hs; inversion Hr; subst; cbn [add_row]; constructor.
  - lia.
  - apply IH; assumption.
Qed.

Lemma fresh_trials_range (ds : list dice) (g g' : tape)
  (rows : list (list Z)) :
  Forall validated ds ->
  fresh_trials ds g rows g' ->
  Forall (Forall2 (fun d v => kept_dice d <= v <= kept_dice d * n_faces d) ds)
         rows /\
  forall k sums,
    Forall2 (fun d s => k * kept_dice d <= s
                        <= k * (kept_dice d * n_faces d)) ds sums ->
    Forall2 (fun d s =>
               (k + Z.of_nat (List.length rows)) * kept_dice d <= s
               <= (k + Z.of_nat (List.length rows))
                  * (kept_dice d * n_faces d))
            ds (fold_left add_row rows sums).
Proof.
  intros Hall.
  induction 1 as [g|g g1 g2 row used rows Hroll _ [IHrows IHsum]].
  - split; [constructor|].
    intros k sums Hs. cbn [fold_left List.length Z.of_nat].
    rewrite Z.add_0_r. exact Hs.
  - pose proof (roll_each_range ds g row used g1 Hall Hroll) as Hrow.
    split; [constructor; assumption|].
    intros k sums Hs. cbn [fold_left List.length].
    rewrite Nat2Z.inj_succ.
    replace (k + Z.succ (Z.of_nat (List.length rows)))
      with ((k + 1) + Z.of_nat (List.length rows)) by lia.
    apply IHsum. apply add_row_range; assumption.
Qed.

Lemma zeros_range (ds : list dice) :
  Forall2 (fun d s => 0 * kept_dice d <= s <= 0 * (kept_dice d * n_faces d))
          ds (map (fun _ => 0) ds).
Proof. induction ds as [|d ds IH]; cbn [map]; constructor; [lia|exact IH]. Qed.

(** X19.  On validated dice every total printed lies between the number
    of dice kept and that number times [n_faces]; after n trials the
    frequentist sum of a die lies between n times the one and n times
    the other, so that its average is within the range of the die. *)
Theorem totals_stay_within_the_dice (ds : list dice) :
  Forall validated ds ->
  (forall n g rows ds' g',
      explicit_loop n ds g = Done (rows, ds', g') ->
      Forall (Forall2 (fun d v => kept_dice d <= v
                                  <= kept_dice d * n_faces d) ds) rows) /\
  (forall n g sums ds' g',
      freq_loop n ds (map (fun _ => 0) ds) g = Done (sums, ds', g') ->
      Forall2 (fun d s => Z.of_nat n * kept_dice d <= s
                          <= Z.of_nat n * (kept_dice d * n_faces d))
              ds sums).
Proof.
  intros Hall. split.
  - intros n g rows ds' g' H.
    apply explicit_loop_fresh in H as (_ & _ & Hfresh).
    apply (fresh_trials_range ds g g' rows Hall Hfresh).
  - intros n g sums ds' g' H.
    apply freq_loop_fresh in H as (_ & rows & Hlen & Hfresh & ->);
      [|apply length_map].
    destruct (fresh_trials_range ds g g' rows Hall Hfresh) as [_ Hsum].
    specialize (Hsum 0 _ (zeros_range ds)).
    rewrite Hlen, Z.add_0_l in Hsum. exact Hsum.
Qed.

Lemma totals_stay_within_the_dice_witness :
  Forall validated [mk_dice 6 4 0 0 1 1] /\
  freq_loop 2 [mk_dice 6 4 0 0 1 1] (map (fun _ => 0) [mk_dice 6 4 0 0 1 1])
    [0; 1; 2; 3; 5; 5; 5; 5]
  = Done ([17], [mk_dice 6 4 0 0 1 1], []) /\
  Forall2 (fun d s => Z.of_nat 2 * kept_dice d <= s
                      <= Z.of_nat 2 * (kept_dice d * n_faces d))
          [mk_dice 6 4 0 0 1 1] [17].
Proof.
  assert (Hall : Forall validated [mk_dice 6 4 0 0 1 1]).
  { constructor; [|constructor].
    split; [constructor; simpl; lia|reflexivity]. }
  split; [exact Hall|]. split; [reflexivity|].
  destruct (totals_stay_within_the_dice [mk_dice 6 4 0 0 1 1] Hall)
    as [_ Hfreq].
  apply (Hfreq 2%nat [0; 1; 2; 3; 5; 5; 5; 5] [17] [mk_dice 6 4 0 0 1 1] []).
  reflexivity.
Defined.








